(** * Geospatial preprocessing toolkit: raster mosaicking, Sentinel-2 index
    calculators, per-image export loops and terrain metrics.

    The development embeds the scripts of the repository shallowly:
    - [Mosaic]   : scripts/preprocessing/r/mosaic_rasters.R
    - [EE]       : the Earth Engine image primitives the JavaScript calls
    - [Sentinel] : scripts/preprocessing/gee/functions/sentinel_indices_and_masks.js
    - [Exporting]: exportBandsByYear / exportImageCollection of the utils script
    - [Terrain]  : the terrain-metrics script. *)

From Stdlib Require Import ZArith QArith Qminmax Lia List String Ascii Bool.
From Stdlib Require Import DecimalString Reals Lra.
From stdpp Require Import base option list sorting gmap strings.

(* ===================================================================== *)
(** * R side: mosaic_rasters.R *)
(* ===================================================================== *)

Module Mosaic.

Local Open Scope string_scope.
Local Open Scope list_scope.

(** ** Rasters

    A [SpatRaster] on the common grid: its extent (in grid units) and, per
    cell, a value or NA ([None]).  Values are exact rationals. *)

Definition cell : Type := (Z * Z)%type.

Record extent : Type := Extent { xmin : Z; xmax : Z; ymin : Z; ymax : Z }.

Definition ext_union (e1 e2 : extent) : extent :=
  {| xmin := Z.min (xmin e1) (xmin e2);
     xmax := Z.max (xmax e1) (xmax e2);
     ymin := Z.min (ymin e1) (ymin e2);
     ymax := Z.max (ymax e1) (ymax e2) |}.

Record SpatRaster : Type := Raster { r_ext : extent; r_val : cell -> option Q }.

(** Two rasters are the same mosaic when they have the same extent and, at
    every cell, are both NA or hold equal numbers. *)
Definition same_value (a b : option Q) : Prop :=
  match a, b with
  | Some x, Some y => Qeq x y
  | None, None => True
  | _, _ => False
  end.

Definition raster_equiv (r1 r2 : SpatRaster) : Prop :=
  r_ext r1 = r_ext r2 /\ forall c, same_value (r_val r1 c) (r_val r2 c).

(** ** Aggregation functions: [fun = "mean"], the default *)

Definition agg : Type := list Q -> Q.

Definition Qsum (vs : list Q) : Q := fold_right Qplus 0%Q vs.

Definition agg_mean : agg :=
  fun vs => (Qsum vs / inject_Z (Z.of_nat (length vs)))%Q.

(** ** terra::mosaic

    As terra documents it: the output covers the union of the input extents;
    a cell holds [fun] applied to the non-NA values the inputs have there, in
    input order, and is NA where no input has a value. *)

Definition cell_values (rs : list SpatRaster) (c : cell) : list Q :=
  omap (fun r => r_val r c) rs.

Definition mosaic_cell (f : agg) (rs : list SpatRaster) (c : cell) : option Q :=
  match cell_values rs c with
  | [] => None
  | vs => Some (f vs)
  end.

Definition mosaic_ext (r : SpatRaster) (rs : list SpatRaster) : extent :=
  fold_left ext_union (map r_ext rs) (r_ext r).

Definition mosaic_of (f : agg) (r : SpatRaster) (rs : list SpatRaster) : SpatRaster :=
  {| r_ext := mosaic_ext r rs; r_val := mosaic_cell f (r :: rs) |}.

(** ** The world the functions run in: files on disk and the sequence of
    terra calls made so far. *)

Inductive event : Type :=
| EvSprc (paths : list (option string))   (* terra::sprc(paths) *)
| EvMosaicCollection (n : nat)            (* terra::mosaic(rsrc, fun), n rasters *)
| EvMosaicPair                            (* terra::mosaic(final, batch, fun) *)
| EvTmpFilesRemove                        (* terra::tmpFiles(remove = TRUE) *)
| EvWriteRaster (path : string).          (* terra::writeRaster(.., overwrite = TRUE) *)

Record world : Type := World { files : gmap string SpatRaster; calls : list event }.

Definition log (e : event) (w : world) : world :=
  {| files := files w; calls := calls w ++ [e] |}.

(** Result of an R call: a value, or [stop(msg)]. *)
Inductive outcome (A : Type) : Type :=
| Ok (a : A)
| Stop (msg : string).
Arguments Ok {A} a.
Arguments Stop {A} msg.

Definition Rio (A : Type) : Type := world -> world * outcome A.

Definition ret {A} (a : A) : Rio A := fun w => (w, Ok a).
Definition stop {A} (msg : string) : Rio A := fun w => (w, Stop msg).
Definition bind {A B} (m : Rio A) (k : A -> Rio B) : Rio B :=
  fun w => match m w with
           | (w', Ok a) => k a w'
           | (w', Stop msg) => (w', Stop msg)
           end.

Notation "x <~ m ;; k" := (bind m (fun x => k))
  (at level 100, m at next level, right associativity).
Notation "m ;;; k" := (bind m (fun _ => k))
  (at level 100, right associativity).

(** [terra::sprc]: open every path; a missing file or an NA path is an error. *)
Fixpoint open_all (fs : gmap string SpatRaster) (paths : list (option string))
  : option (list SpatRaster) :=
  match paths with
  | [] => Some []
  | None :: _ => None
  | Some p :: ps =>
      match fs !! p, open_all fs ps with
      | Some r, Some rs => Some (r :: rs)
      | _, _ => None
      end
  end.

Definition sprc (paths : list (option string)) : Rio (list SpatRaster) :=
  fun w =>
    let w' := log (EvSprc paths) w in
    match open_all (files w) paths with
    | Some rs => (w', Ok rs)
    | None => (w', Stop "file does not exist")
    end.

Definition mosaic_collection (f : agg) (rsrc : list SpatRaster) : Rio SpatRaster :=
  fun w =>
    let w' := log (EvMosaicCollection (length rsrc)) w in
    match rsrc with
    | [] => (w', Stop "empty SpatRasterCollection")
    | r :: rs => (w', Ok (mosaic_of f r rs))
    end.

Definition mosaic_pair (f : agg) (x y : SpatRaster) : Rio SpatRaster :=
  fun w => (log EvMosaicPair w, Ok (mosaic_of f x [y])).

Definition tmpFiles_remove : Rio unit :=
  fun w => (log EvTmpFilesRemove w, Ok tt).

Definition writeRaster (m : SpatRaster) (filename : string) : Rio unit :=
  fun w => ({| files := <[filename := m]> (files w);
               calls := calls w ++ [EvWriteRaster filename] |}, Ok tt).

(** ** mosaic_rasters_in_list

    [rm(rsrc)] and [gc()] free memory only and leave no trace here. *)

Definition mosaic_rasters_in_list
    (raster_files : list string) (export_filename : string) (f : agg)
  : Rio SpatRaster :=
  if (length raster_files =? 0)%nat then
    stop "No raster files provided for mosaicking."
  else
    rsrc <~ sprc (map Some raster_files) ;;
    m <~ mosaic_collection f rsrc ;;
    writeRaster m export_filename ;;;
    ret m.

(** ** mosaic_rasters_in_directory *)

Definition endsWith (s suffix : string) : bool :=
  (String.length suffix <=? String.length s)%nat
  && String.eqb
       (String.substring (String.length s - String.length suffix)
                         (String.length suffix) s)
       suffix.

(** [list.files(path, pattern = "\\.tif$", recursive = TRUE, full.names = TRUE)]:
    the paths below the directory whose name ends in ".tif", sorted. *)
Definition list_files (fs : gmap string SpatRaster) (path_name : string) : list string :=
  filter (fun p => Is_true (String.prefix path_name p && endsWith p ".tif"))
         (merge_sort (fun a b => Is_true (String.leb a b)) (map fst (map_to_list fs))).

(** "Ensure the path ends with a slash". *)
Definition with_slash (path_name : string) : string :=
  if negb (endsWith path_name "/") then (path_name ++ "/")%string else path_name.

Definition mosaic_rasters_in_directory
    (path_name : string) (export_filename : string) (f : agg)
  : Rio SpatRaster :=
  fun w =>
    let path_name := with_slash path_name in
    let fl := list_files (files w) path_name in
    (if (length fl =? 0)%nat then
       stop "No .tif files found in the specified directory."
     else
       rsrc <~ sprc (map Some fl) ;;
       m <~ mosaic_collection f rsrc ;;
       writeRaster m export_filename ;;;
       ret m) w.

(** ** mosaic_rasters_in_batches *)

(** R's [seq(from, to, by)] on positive integers. *)
Definition seq_by (from to by_ : nat) : outcome (list nat) :=
  if (from =? to)%nat then Ok [from]
  else if (by_ =? 0)%nat then Stop "invalid '(to - from)/by' in seq(.)"
  else if (to <? from)%nat then Stop "wrong sign in 'by' argument"
  else Ok (map (fun k => from + k * by_)%nat (seq 0 (S ((to - from) / by_)))).

(** R's [a:b], ascending or descending. *)
Definition colon (a b : nat) : list nat :=
  if (a <=? b)%nat then seq a (b - a + 1) else rev (seq b (a - b + 1)).

(** R's [x[idx]] for positive indices: 1-based, index 0 is dropped, an index
    past the end gives NA. *)
Definition subset {A} (x : list A) (idx : list nat) : list (option A) :=
  flat_map (fun i => match i with
                     | O => []
                     | S j => [x !! j]
                     end) idx.

Definition batch_files (raster_files : list string) (batch_size num_files i : nat)
  : list (option string) :=
  subset raster_files (colon i (Nat.min (i + batch_size - 1) num_files)).

(** One iteration of the [for] loop: select the batch, read it, mosaic it,
    merge it into [final_mosaic], clear temporary files ([rm] and [gc] free
    memory only). *)
Definition batch_step (raster_files : list string) (f : agg)
    (batch_size num_files : nat) (final_mosaic : option SpatRaster) (i : nat)
  : Rio (option SpatRaster) :=
  rsrc <~ sprc (batch_files raster_files batch_size num_files i) ;;
  batch_mosaic <~ mosaic_collection f rsrc ;;
  final' <~ match final_mosaic with
            | None => ret batch_mosaic
            | Some fm => mosaic_pair f fm batch_mosaic
            end ;;
  tmpFiles_remove ;;;
  ret (Some final').

Fixpoint for_each {S A} (body : S -> A -> Rio S) (xs : list A) (s : S) : Rio S :=
  match xs with
  | [] => ret s
  | x :: xs' => s' <~ body s x ;; for_each body xs' s'
  end.

Definition mosaic_rasters_in_batches
    (raster_files : list string) (export_filename : string) (f : agg)
    (batch_size : nat)
  : Rio SpatRaster :=
  if (length raster_files =? 0)%nat then
    stop "No raster files provided for mosaicking."
  else
    let num_files := length raster_files in
    match seq_by 1 num_files batch_size with
    | Stop msg => stop msg
    | Ok starts =>
        final_mosaic <~ for_each (batch_step raster_files f batch_size num_files)
                                 starts None ;;
        match final_mosaic with
        | None => stop "cannot write a NULL raster"
        | Some m => writeRaster m export_filename ;;; ret m
        end
    end.

(** ** Vocabulary for stating the behaviour of the batch loop *)

(** The [k]-th consecutive chunk of size [b] of a list. *)
Definition chunk {A} (b : nat) (x : list A) (k : nat) : list A :=
  take b (drop (k * b) x).

(** The one-pass mosaic of a non-empty list of rasters. *)
Definition mosaic_list (f : agg) (rs : list SpatRaster) : option SpatRaster :=
  match rs with
  | [] => None
  | r :: rs' => Some (mosaic_of f r rs')
  end.

(** What one loop iteration does to [final_mosaic], given the rasters of
    the batch. *)
Definition merge_step (f : agg) (final_mosaic : option SpatRaster)
    (batch : list SpatRaster) : option SpatRaster :=
  match batch with
  | [] => final_mosaic
  | r :: rs =>
      let batch_mosaic := mosaic_of f r rs in
      Some (match final_mosaic with
            | None => batch_mosaic
            | Some fm => mosaic_of f fm [batch_mosaic]
            end)
  end.

Definition is_null {A} (o : option A) : bool :=
  match o with None => true | Some _ => false end.

(** The terra calls of one iteration: read the batch, mosaic it, fold it
    into the running mosaic (nothing to fold into on the first iteration),
    clear temporary files. *)
Definition batch_events (first : bool) (batch : list (option string)) : list event :=
  [EvSprc batch; EvMosaicCollection (length batch)]
  ++ (if first then [] else [EvMosaicPair])
  ++ [EvTmpFilesRemove].

Fixpoint batch_trace (first : bool) (batches : list (list (option string)))
  : list event :=
  match batches with
  | [] => []
  | b :: bs => batch_events first b ++ batch_trace false bs
  end.

Definition logs (es : list event) (w : world) : world :=
  {| files := files w; calls := calls w ++ es |}.

(** ** Sample inputs *)

(** A one-cell tile. *)
Definition tile_at (c0 : cell) (v : Q) : SpatRaster :=
  {| r_ext := Extent (fst c0) (fst c0 + 1) (snd c0) (snd c0 + 1);
     r_val := fun c => if decide (c = c0) then Some v else None |}.

Definition tile (v : Q) : SpatRaster := tile_at (0, 0)%Z v.

(** Three tiles that overlap. *)
Definition disk0 : gmap string SpatRaster :=
  <["tiles/a.tif" := tile 0]> (<["tiles/b.tif" := tile 0]> (<["tiles/c.tif" := tile 6]> ∅)).

Definition world0 : world := {| files := disk0; calls := [] |}.

Definition tiles0 : list string := ["tiles/a.tif"; "tiles/b.tif"; "tiles/c.tif"].

End Mosaic.

(* ===================================================================== *)
(** * Earth Engine: the image primitives the scripts call *)
(* ===================================================================== *)

Module EE.

Local Open Scope string_scope.
Local Open Scope list_scope.

(** The primitives follow the Earth Engine API reference; what a script
    never observes of them (image metadata, projections) is left out. *)

(** ** Pixel arithmetic

    The per-pixel operations Earth Engine applies, whatever the pixel type.
    [lit] is a numeric literal, [is_neg] the test [v < 0]; what [div] gives
    for a zero divisor is the pixel type's business. *)
Class Numeric (V : Type) : Type := {
  lit : Q -> V;
  add : V -> V -> V;
  sub : V -> V -> V;
  mul : V -> V -> V;
  div : V -> V -> V;
  sqrt : V -> V;
  is_neg : V -> bool
}.

(** Real-valued pixels. *)
#[export] Instance Numeric_R : Numeric R := {
  lit := Q2R;
  add := Rplus;
  sub := Rminus;
  mul := Rmult;
  div := Rdiv;
  sqrt := R_sqrt.sqrt;
  is_neg := fun v => if Rlt_dec v 0 then true else false
}.

(** ** Images

    A band has a name and, per pixel, a value or a mask ([None]); an image
    is its list of bands, in band order.  Image metadata is not modelled. *)

Definition pixel : Type := (Z * Z)%type.

Definition Raster (V : Type) : Type := pixel -> option V.

Record Band (V : Type) : Type := mkBand { b_name : string; b_px : Raster V }.
Arguments mkBand {V} b_name b_px.
Arguments b_name {V} b.
Arguments b_px {V} b.

Definition Image (V : Type) : Type := list (Band V).

Definition bandNames {V} (image : Image V) : list string := map b_name image.

(** A server-side computation either yields its value or fails. *)
Inductive Computed (A : Type) : Type :=
| Done (a : A)
| Failed (msg : string).
Arguments Done {A} a.
Arguments Failed {A} msg.

Definition bind {A B} (m : Computed A) (k : A -> Computed B) : Computed B :=
  match m with
  | Done a => k a
  | Failed msg => Failed msg
  end.

Notation "x <~ m ;; k" := (bind m (fun x => k))
  (at level 100, m at next level, right associativity).

(** [image.select(name)]: the band of that name; an error when none matches. *)
Definition select {V} (image : Image V) (name : string) : Computed (Band V) :=
  match List.find (fun b => String.eqb (b_name b) name) image with
  | Some b => Done b
  | None => Failed ("Image.select: Pattern '" ++ name ++ "' did not match any bands.")
  end.

(** [band.rename(name)]. *)
Definition rename {V} (b : Band V) (name : string) : Band V :=
  {| b_name := name; b_px := b_px b |}.

(** [dst.addBands(src)] with the default [overwrite = false]: the bands of
    [src] are appended after those of [dst]; a band whose name is taken is
    renamed with a numerical suffix ([foo] to [foo_1] unless [foo_1] exists,
    then [foo_2], and so on). *)
Definition numbered (name : string) (k : nat) : string :=
  name ++ "_" ++ NilEmpty.string_of_uint (Nat.to_uint k).

Definition has_name (names : list string) (name : string) : bool :=
  existsb (String.eqb name) names.

Definition fresh_name (names : list string) (name : string) : string :=
  if has_name names name then
    match List.find (fun k => negb (has_name names (numbered name k)))
                    (seq 1 (S (length names))) with
    | Some k => numbered name k
    | None => numbered name (S (length names))
    end
  else name.

Definition addBands {V} (dst src : Image V) : Image V :=
  fold_left (fun acc b => acc ++ [rename b (fresh_name (bandNames acc) (b_name b))])
            src dst.

(** [image.normalizedDifference([a, b])]: one band named "nd" holding
    [(a - b) / (a + b)]; a pixel is masked where either input is masked or
    negative. *)
Definition normalizedDifference {V} `{Numeric V} (image : Image V)
    (names : list string) : Computed (Band V) :=
  match names with
  | [a; b] =>
      x <~ select image a ;;
      y <~ select image b ;;
      Done {| b_name := "nd";
              b_px := fun p =>
                match b_px x p, b_px y p with
                | Some u, Some v =>
                    if is_neg u || is_neg v then None
                    else Some (div (sub u v) (add u v))
                | _, _ => None
                end |}
  | _ => Failed "Image.normalizedDifference: two band names are required."
  end.

(** ** [image.expression(text, map)]

    The expression text as a syntax tree; [map] binds its variables to
    images.  A pixel of the result is masked where an input it reads is
    masked. *)
Inductive expr : Type :=
| Num (q : Q)
| Var (x : string)
| Add (a b : expr)
| Sub (a b : expr)
| Mul (a b : expr)
| Div (a b : expr)
| Sqrt (a : expr).

Fixpoint bound {V} (vars : list (string * Raster V)) (e : expr) : bool :=
  match e with
  | Num _ => true
  | Var x => has_name (map fst vars) x
  | Add a b | Sub a b | Mul a b | Div a b => bound vars a && bound vars b
  | Sqrt a => bound vars a
  end.

Definition lookup_var {V} (vars : list (string * Raster V)) (x : string)
  : option (Raster V) :=
  option_map snd (List.find (fun xv => String.eqb (fst xv) x) vars).

Definition lift2 {V} (op : V -> V -> V) (a b : option V) : option V :=
  match a, b with
  | Some u, Some v => Some (op u v)
  | _, _ => None
  end.

Fixpoint eval {V} `{Numeric V} (vars : list (string * Raster V)) (p : pixel)
    (e : expr) : option V :=
  match e with
  | Num q => Some (lit q)
  | Var x => match lookup_var vars x with
             | Some r => r p
             | None => None
             end
  | Add a b => lift2 add (eval vars p a) (eval vars p b)
  | Sub a b => lift2 sub (eval vars p a) (eval vars p b)
  | Mul a b => lift2 mul (eval vars p a) (eval vars p b)
  | Div a b => lift2 div (eval vars p a) (eval vars p b)
  | Sqrt a => option_map sqrt (eval vars p a)
  end.

Definition expression {V} `{Numeric V} (e : expr) (vars : list (string * Raster V))
  : Computed (Raster V) :=
  if bound vars e then Done (fun p => eval vars p e)
  else Failed "Image.expression: unbound variable.".

(** Naming the result of an expression. *)
Definition named {V} (r : Raster V) (name : string) : Band V :=
  {| b_name := name; b_px := r |}.

(** ** Integer bands: bit tests and masks *)

Definition map_px {A B} (f : A -> B) (b : Band A) : Band B :=
  {| b_name := b_name b; b_px := fun p => option_map f (b_px b p) |}.

Definition bitwiseAnd (b : Band Z) (m : Z) : Band Z := map_px (fun v => Z.land v m) b.

Definition eq_const (b : Band Z) (k : Z) : Band Z :=
  map_px (fun v => if (v =? k)%Z then 1%Z else 0%Z) b.

Definition and_ (a b : Band Z) : Band Z :=
  {| b_name := b_name a;
     b_px := fun p =>
       match b_px a p, b_px b p with
       | Some u, Some v =>
           Some (if negb (u =? 0)%Z && negb (v =? 0)%Z then 1%Z else 0%Z)
       | _, _ => None
       end |}.

(** [image.updateMask(mask)]: a pixel stays valid where it was valid and the
    mask is valid and non-zero. *)
Definition updateMask {V} (image : Image V) (mask : Band Z) : Image V :=
  map (fun b =>
         {| b_name := b_name b;
            b_px := fun p =>
              match b_px mask p with
              | Some m => if (m =? 0)%Z then None else b_px b p
              | None => None
              end |}) image.

(** [image.divide(k)] on integer bands: every band, pixel by pixel. *)
Definition divide {V} `{Numeric V} (image : Image Z) (k : Z) : Image V :=
  map (map_px (fun v => div (lit (inject_Z v)) (lit (inject_Z k)))) image.

(** A band with the same value at every pixel. *)
Definition constant_band {V} (name : string) (v : V) : Band V :=
  {| b_name := name; b_px := fun _ => Some v |}.

End EE.

(* ===================================================================== *)
(** * The client side: JavaScript values *)
(* ===================================================================== *)

Module JS.

Local Open Scope string_scope.

(** The values a callback of these scripts can produce; numbers are kept to
    the integers. *)
Inductive js_value : Type :=
| JsUndefined
| JsNull
| JsBoolean (b : bool)
| JsNumber (n : Z)
| JsString (s : string)
| JsObject.

(** ToBoolean. *)
Definition truthy (v : js_value) : bool :=
  match v with
  | JsUndefined | JsNull => false
  | JsBoolean b => b
  | JsNumber n => negb (n =? 0)%Z
  | JsString s => negb (String.eqb s "")
  | JsObject => true
  end.

Definition typeof (v : js_value) : string :=
  match v with
  | JsUndefined => "undefined"
  | JsNull => "object"
  | JsBoolean _ => "boolean"
  | JsNumber _ => "number"
  | JsString _ => "string"
  | JsObject => "object"
  end.

(** [Array.prototype.every]. *)
Definition every {A} (callback : A -> js_value) (xs : list A) : bool :=
  forallb (fun x => truthy (callback x)) xs.

End JS.

(* ===================================================================== *)
(** * sentinel_indices_and_masks.js *)
(* ===================================================================== *)

Module Sentinel.
Import EE JS.

Local Open Scope string_scope.
Local Open Scope list_scope.

Declare Scope expr_scope.
Delimit Scope expr_scope with E.
Notation "a + b" := (Add a b) : expr_scope.
Notation "a - b" := (Sub a b) : expr_scope.
Notation "a * b" := (Mul a b) : expr_scope.
Notation "a / b" := (Div a b) : expr_scope.

Section Indices.
Context {V : Type} `{Numeric V}.

(** '(RedEdge3 / RedEdge1) - 1' *)
Definition addCRE (image : Image V) : Computed (Image V) :=
  B5 <~ select image "B5" ;;
  B7 <~ select image "B7" ;;
  r <~ expression ((Var "RedEdge3" / Var "RedEdge1") - Num 1)%E
         [("RedEdge1", b_px B5); ("RedEdge3", b_px B7)] ;;
  let CRE := named r "CRE" in
  Done (addBands image [CRE]).

(** '(NIR + Green) / (Red + SWIR)' *)
Definition addDSWI (image : Image V) : Computed (Image V) :=
  B8 <~ select image "B8" ;;
  B3 <~ select image "B3" ;;
  B4 <~ select image "B4" ;;
  B11 <~ select image "B11" ;;
  r <~ expression ((Var "NIR" + Var "Green") / (Var "Red" + Var "SWIR"))%E
         [("NIR", b_px B8); ("Green", b_px B3); ("Red", b_px B4);
          ("SWIR", b_px B11)] ;;
  let DSWI := named r "DSWI" in
  Done (addBands image [DSWI]).

(** 'sqrt(((RED) * (RED)) + ((SWIR) * (SWIR)))'; the copied property
    [system:time_start] is metadata. *)
Definition addDRS (image : Image V) : Computed (Image V) :=
  B11 <~ select image "B11" ;;
  B4 <~ select image "B4" ;;
  r <~ expression (Sqrt ((Var "RED" * Var "RED") + (Var "SWIR" * Var "SWIR")))%E
         [("SWIR", b_px B11); ("RED", b_px B4)] ;;
  let DRS := named r "DRS" in
  Done (addBands image [DRS]).

(** '2.5 * ((NIR - RED) / (NIR + 6 * RED - 7.5 * BLUE + 1))' *)
Definition EVI_expr : expr :=
  (Num 2.5 * ((Var "NIR" - Var "RED")
              / (Var "NIR" + Num 6 * Var "RED" - Num 7.5 * Var "BLUE" + Num 1)))%E.

Definition addEVI (image : Image V) : Computed (Image V) :=
  B8 <~ select image "B8" ;;
  B4 <~ select image "B4" ;;
  B2 <~ select image "B2" ;;
  r <~ expression EVI_expr
         [("NIR", b_px B8); ("RED", b_px B4); ("BLUE", b_px B2)] ;;
  let EVI := named r "EVI" in
  Done (addBands image [EVI]).

Definition addGNDVI (image : Image V) : Computed (Image V) :=
  nd <~ normalizedDifference image ["B8"; "B3"] ;;
  let GNDVI := rename nd "GNDVI" in
  Done (addBands image [GNDVI]).

(** '3.618 * (EVI) - 0.118', with EVI bound to the EVI expression. *)
Definition addLAI (image : Image V) : Computed (Image V) :=
  B8 <~ select image "B8" ;;
  B4 <~ select image "B4" ;;
  B2 <~ select image "B2" ;;
  evi <~ expression EVI_expr
           [("NIR", b_px B8); ("RED", b_px B4); ("BLUE", b_px B2)] ;;
  r <~ expression (Num 3.618 * Var "EVI" - Num 0.118)%E [("EVI", evi)] ;;
  let LAI := named r "LAI" in
  Done (addBands image [LAI]).

(** '(NIR - SWIR2) / (NIR + SWIR2)' *)
Definition addNBR (image : Image V) : Computed (Image V) :=
  B8 <~ select image "B8" ;;
  B12 <~ select image "B12" ;;
  r <~ expression ((Var "NIR" - Var "SWIR2") / (Var "NIR" + Var "SWIR2"))%E
         [("NIR", b_px B8); ("SWIR2", b_px B12)] ;;
  let NBR := named r "NBR" in
  Done (addBands image [NBR]).

(** '(RedEdge2 - RedEdge1) / (RedEdge2 + RedEdge1)' *)
Definition addNDRE1 (image : Image V) : Computed (Image V) :=
  B6 <~ select image "B6" ;;
  B5 <~ select image "B5" ;;
  r <~ expression ((Var "RedEdge2" - Var "RedEdge1")
                   / (Var "RedEdge2" + Var "RedEdge1"))%E
         [("RedEdge2", b_px B6); ("RedEdge1", b_px B5)] ;;
  let NDRE1 := named r "NDRE1" in
  Done (addBands image [NDRE1]).

(** '(RedEdge3 - RedEdge1) / (RedEdge3 + RedEdge1)' *)
Definition addNDRE2 (image : Image V) : Computed (Image V) :=
  B7 <~ select image "B7" ;;
  B5 <~ select image "B5" ;;
  r <~ expression ((Var "RedEdge3" - Var "RedEdge1")
                   / (Var "RedEdge3" + Var "RedEdge1"))%E
         [("RedEdge3", b_px B7); ("RedEdge1", b_px B5)] ;;
  let NDRE2 := named r "NDRE2" in
  Done (addBands image [NDRE2]).

(** [image.bandNames().contains(b)] is, on the client, a handle on a
    server-side computation: a JavaScript object, whatever the answer
    the server would give. *)
Record ComputedObject (A : Type) : Type := { server_value : A }.

Definition contains (names : list string) (b : string) : ComputedObject bool :=
  {| server_value := has_name names b |}.

Definition as_js {A} (o : ComputedObject A) : js_value := JsObject.

(** [ee.Algorithms.If(condition, trueCase, falseCase)]. *)
Definition Algorithms_If {A} (condition : bool) (trueCase falseCase : A) : A :=
  if condition then trueCase else falseCase.

Definition with_NDRE3 (image : Image V) : Computed (Image V) :=
  B8A <~ select image "B8A" ;;
  B7 <~ select image "B7" ;;
  r <~ expression ((Var "RedEdge4" - Var "RedEdge3")
                   / (Var "RedEdge4" + Var "RedEdge3"))%E
         [("RedEdge4", b_px B8A); ("RedEdge3", b_px B7)] ;;
  Done (addBands image [named r "NDRE3"]).

Definition addNDRE3 (image : Image V) : Computed (Image V) :=
  let bands := ["B8A"; "B7"] in
  let hasBands := every (fun b => as_js (contains (bandNames image) b)) bands in
  Algorithms_If hasBands (with_NDRE3 image) (Done image).

Definition addNDVI (image : Image V) : Computed (Image V) :=
  nd <~ normalizedDifference image ["B8"; "B4"] ;;
  let NDVI := rename nd "NDVI" in
  Done (addBands image [NDVI]).

(** '(Green - NIR) / (Green + NIR)' *)
Definition addNDWI (image : Image V) : Computed (Image V) :=
  B8 <~ select image "B8" ;;
  B3 <~ select image "B3" ;;
  r <~ expression ((Var "Green" - Var "NIR") / (Var "Green" + Var "NIR"))%E
         [("NIR", b_px B8); ("Green", b_px B3)] ;;
  let NDWI := named r "NDWI" in
  Done (addBands image [NDWI]).

Definition with_RDI (image : Image V) : Computed (Image V) :=
  B12 <~ select image "B12" ;;
  B8A <~ select image "B8A" ;;
  r <~ expression (Var "SWIR2" / Var "RedEdge4")%E
         [("SWIR2", b_px B12); ("RedEdge4", b_px B8A)] ;;
  Done (addBands image [named r "RDI"]).

Definition addRDI (image : Image V) : Computed (Image V) :=
  let bands := ["B12"; "B8A"] in
  let hasBands := every (fun b => as_js (contains (bandNames image) b)) bands in
  Algorithms_If hasBands (with_RDI image) (Done image).

(** Bits 10 and 11 of QA60 are clouds and cirrus. *)
Definition maskS2clouds (image : Image Z) : Computed (Image V) :=
  qa <~ select image "QA60" ;;
  let cloudBitMask := Z.shiftl 1 10 in
  let cirrusBitMask := Z.shiftl 1 11 in
  let mask := and_ (eq_const (bitwiseAnd qa cloudBitMask) 0)
                   (eq_const (bitwiseAnd qa cirrusBitMask) 0) in
  Done (divide (updateMask image mask) 10000).
End Indices.

(** The eleven single-index adders, by name of the band they add and the
    bands they read. *)
Definition single_index_adders {V} `{Numeric V}
  : list (string * list string * (Image V -> Computed (Image V))) :=
  [ ("CRE", ["B5"; "B7"], addCRE);
    ("DSWI", ["B8"; "B3"; "B4"; "B11"], addDSWI);
    ("DRS", ["B11"; "B4"], addDRS);
    ("EVI", ["B8"; "B4"; "B2"], addEVI);
    ("GNDVI", ["B8"; "B3"], addGNDVI);
    ("LAI", ["B8"; "B4"; "B2"], addLAI);
    ("NBR", ["B8"; "B12"], addNBR);
    ("NDRE1", ["B6"; "B5"], addNDRE1);
    ("NDRE2", ["B7"; "B5"], addNDRE2);
    ("NDVI", ["B8"; "B4"], addNDVI);
    ("NDWI", ["B8"; "B3"], addNDWI) ].

(** What [maskS2clouds] is to leave at a pixel whose band holds [v] where
    QA60 holds [qa]: the value over 10000 when both are valid and bits 10 and
    11 of [qa] are zero, a masked pixel otherwise. *)
Definition cloud_masked {V} `{Numeric V} (v qa : option Z) : option V :=
  match v, qa with
  | Some v, Some qa =>
      if negb (Z.testbit qa 10) && negb (Z.testbit qa 11)
      then Some (div (lit (inject_Z v)) (lit 10000))
      else None
  | _, _ => None
  end.

(** ** Sample images *)

(** A Sentinel-2 surface-reflectance image with the bands the indices read. *)
Definition s2_image : Image R :=
  [ constant_band "B2" 0.04%R; constant_band "B3" 0.07%R;
    constant_band "B4" 0.05%R; constant_band "B5" 0.11%R;
    constant_band "B6" 0.25%R; constant_band "B7" 0.3%R;
    constant_band "B8" 0.35%R; constant_band "B8A" 0.33%R;
    constant_band "B11" 0.2%R; constant_band "B12" 0.1%R ].

(** An image that has B8 and B4, already carries a band called NDVI, and
    whose B8 is negative. *)
Definition indexed_image : Image R :=
  [ constant_band "B4" 3%R; constant_band "B8" (-1)%R; constant_band "NDVI" 0%R ].

(** A visible-light image: no red-edge, NIR or SWIR band. *)
Definition rgb_image : Image R :=
  [ constant_band "B2" 0.04%R; constant_band "B3" 0.07%R;
    constant_band "B4" 0.05%R ].

(** Raw digital numbers with their QA60 band: a clear pixel at (0,0), an
    opaque cloud at (0,1), cirrus at (1,0). *)
Definition raw_image : Image Z :=
  [ constant_band "B4" 1500%Z;
    {| b_name := "QA60";
       b_px := fun p => match p with
                        | (0, 1)%Z => Some 1024%Z
                        | (1, 0)%Z => Some 2048%Z
                        | _ => Some 0%Z
                        end |} ].

End Sentinel.

(* ===================================================================== *)
(** * exportBandsByYear and exportImageCollection *)
(* ===================================================================== *)

Module Exporting.
Import JS.

Local Open Scope string_scope.
Local Open Scope list_scope.

(** ** Server-side objects, as the client builds them *)

Inductive geometry : Type := Geometry (name : string).

Inductive ee_image : Type :=
| ListGet (i : nat)                            (* ee.Image(colList.get(i)) *)
| SelectBand (img : ee_image) (band : string)  (* img.select(band) *)
| Clip (img : ee_image) (aoi : geometry).      (* img.clip(aoi) *)

(** The argument of [Export.image.toDrive]. *)
Record export_task : Type := ExportTask {
  image : ee_image;
  description : string;
  folder : string;
  fileNamePrefix : string;
  region : geometry;
  scale : Q;
  crs : string;
  maxPixels : Z
}.

(** ** The client: submitted tasks, console output, exceptions *)

Inductive exn : Type := Error (message : string).

Definition message_of (e : exn) : string := match e with Error m => m end.

Inductive completion (A : Type) : Type :=
| Normal (a : A)
| Throw (e : exn).
Arguments Normal {A} a.
Arguments Throw {A} e.

Record client : Type := Client {
  tasks : list export_task;          (* in order of submission *)
  console : list (list string)       (* one entry per print(...) *)
}.

Definition Js (A : Type) : Type := client -> client * completion A.

Definition ret {A} (a : A) : Js A := fun c => (c, Normal a).
Definition throw {A} (e : exn) : Js A := fun c => (c, Throw e).
Definition lift {A} (r : completion A) : Js A := fun c => (c, r).
Definition bind {A B} (m : Js A) (k : A -> Js B) : Js B :=
  fun c => match m c with
           | (c', Normal a) => k a c'
           | (c', Throw e) => (c', Throw e)
           end.

Notation "x <~ m ;; k" := (bind m (fun x => k))
  (at level 100, m at next level, right associativity).
Notation "m ;;; k" := (bind m (fun _ => k))
  (at level 100, right associativity).

(** [try { body } catch (err) { handler(err) }] *)
Definition try_catch (body : Js unit) (handler : exn -> Js unit) : Js unit :=
  fun c => match body c with
           | (c', Normal tt) => (c', Normal tt)
           | (c', Throw e) => handler e c'
           end.

Definition print (args : list string) : Js unit :=
  fun c => ({| tasks := tasks c; console := console c ++ [args] |}, Normal tt).

(** [Export.image.toDrive(params)] queues a task. *)
Definition toDrive (t : export_task) : Js unit :=
  fun c => ({| tasks := tasks c ++ [t]; console := console c |}, Normal tt).

(** [xs.forEach(callback)]; also the body of [for (i = 0; i < size; i++)]. *)
Fixpoint forEach {A} (callback : A -> Js unit) (xs : list A) : Js unit :=
  match xs with
  | [] => ret tt
  | x :: xs' => callback x ;;; forEach callback xs'
  end.

(** [!fileName || typeof fileName !== 'string'] *)
Definition invalid_file_name (fileName : js_value) : bool :=
  negb (truthy fileName) || negb (String.eqb (typeof fileName) "string").

Definition string_of (v : js_value) : string :=
  match v with JsString s => s | _ => "" end.

(** What the functions are given: the collection (its size and the band
    names of its images, as [getInfo] returns them or fails to) and the
    export parameters. *)
Record collection : Type := Collection {
  size_getInfo : completion nat;
  bandNames_getInfo : ee_image -> completion (list string)
}.

Section Exporters.
Context (col : collection) (aoi : geometry) (folder_ : string) (scale_ : Q)
        (crs_ : string).

Definition task (img : ee_image) (fileName : string) : export_task :=
  {| image := img;
     description := fileName;
     folder := folder_;
     fileNamePrefix := fileName;
     region := aoi;
     scale := scale_;
     crs := crs_;
     maxPixels := 10 ^ 13 |}.

Definition exportBandsByYear
    (fileNameFn : ee_image -> string -> completion js_value) : Js unit :=
  size <~ lift (size_getInfo col) ;;
  forEach (fun i =>
    try_catch
      (let img := ListGet i in
       bands <~ lift (bandNames_getInfo col img) ;;
       forEach (fun band =>
         let bandImage := Clip (SelectBand img band) aoi in
         fileName <~ lift (fileNameFn img band) ;;
         if invalid_file_name fileName then
           throw (Error "Invalid file name generated.")
         else
           toDrive (task bandImage (string_of fileName))) bands)
      (fun err => print ["Error processing image:"; message_of err]))
    (seq 0 size).

Definition exportImageCollection
    (fileNameFn : ee_image -> completion js_value) : Js unit :=
  size <~ lift (size_getInfo col) ;;
  forEach (fun i =>
    try_catch
      (let img := ListGet i in
       fileName <~ lift (fileNameFn img) ;;
       if invalid_file_name fileName then
         throw (Error "Invalid file name generated.")
       else
         let clippedImage := Clip img aoi in
         toDrive (task clippedImage (string_of fileName)))
      (fun err => print ["Error processing image:"; message_of err]))
    (seq 0 size).

(** ** Vocabulary for stating what the loops do *)

(** The outcome of producing a file name: the name, or the error thrown. *)
Definition named_or_error (r : completion js_value) : string + exn :=
  match r with
  | Throw e => inr e
  | Normal v => if invalid_file_name v
                then inr (Error "Invalid file name generated.")
                else inl (string_of v)
  end.

(** Handling of image [i] by [exportImageCollection]: the task it submits or
    the error it reports. *)
Definition image_handling (fileNameFn : ee_image -> completion js_value)
    (i : nat) : export_task + exn :=
  match named_or_error (fileNameFn (ListGet i)) with
  | inl name => inl (task (Clip (ListGet i) aoi) name)
  | inr e => inr e
  end.

(** Handling of the bands of an image by [exportBandsByYear]: the tasks
    submitted, band after band, and the error that stopped it, if any. *)
Fixpoint bands_handling (fileNameFn : ee_image -> string -> completion js_value)
    (img : ee_image) (bands : list string) : list export_task * option exn :=
  match bands with
  | [] => ([], None)
  | band :: rest =>
      match named_or_error (fileNameFn img band) with
      | inl name =>
          let '(ts, e) := bands_handling fileNameFn img rest in
          (task (Clip (SelectBand img band) aoi) name :: ts, e)
      | inr e => ([], Some e)
      end
  end.

Definition year_handling (fileNameFn : ee_image -> string -> completion js_value)
    (i : nat) : list export_task * option exn :=
  match bandNames_getInfo col (ListGet i) with
  | Throw e => ([], Some e)
  | Normal bands => bands_handling fileNameFn (ListGet i) bands
  end.

Definition report (e : exn) : list string :=
  ["Error processing image:"; message_of e].

Definition submitted (h : export_task + exn) : list export_task :=
  match h with inl t => [t] | inr _ => [] end.

Definition reported (h : export_task + exn) : list (list string) :=
  match h with inl _ => [] | inr e => [report e] end.

Definition reported_opt (e : option exn) : list (list string) :=
  match e with Some e => [report e] | None => [] end.

End Exporters.

(** The collection index an exported image derives from. *)
Fixpoint source_index (img : ee_image) : option nat :=
  match img with
  | ListGet i => Some i
  | SelectBand img' _ => source_index img'
  | Clip img' _ => source_index img'
  end.

Definition from_image (i : nat) (t : export_task) : bool :=
  match source_index (image t) with
  | Some j => (j =? i)%nat
  | None => false
  end.

(** ** Sample collection: three yearly images of two bands *)

Definition alberta : geometry := Geometry "Alberta".

Definition landsat : collection :=
  {| size_getInfo := Normal 3%nat;
     bandNames_getInfo := fun _ => Normal ["B4"; "B5"] |}.

(** Names the second image [undefined], as a file-name function does that
    forgets to return on some path. *)
Definition name_by_index (img : ee_image) : completion js_value :=
  match img with
  | ListGet 0 => Normal (JsString "ls_multiband_2000")
  | ListGet 1 => Normal JsUndefined
  | ListGet 2 => Normal (JsString "ls_multiband_2002")
  | _ => Throw (Error "no such image")
  end.

Definition name_by_band (img : ee_image) (band : string) : completion js_value :=
  match img with
  | ListGet i => Normal (JsString ("ls_" ++ band ++ "_" ++ NilEmpty.string_of_uint (Nat.to_uint i)))
  | _ => Throw (Error "no such image")
  end.

Definition idle : client := {| tasks := []; console := [] |}.

End Exporting.

(* ===================================================================== *)
(** * The terrain-metrics script *)
(* ===================================================================== *)

Module Terrain.
Import EE.

Local Open Scope string_scope.
Local Open Scope list_scope.

(** Trigonometry on pixel values; [pi] is [Math.PI]. *)
Class Trig (V : Type) : Type := {
  cos : V -> V;
  sin : V -> V;
  pi : V
}.

#[export] Instance Trig_R : Trig R := {
  cos := Rtrigo_def.cos;
  sin := Rtrigo_def.sin;
  pi := PI
}.

(** [image.multiply(k)], [image.divide(k)], [image.cos()], [image.sin()] on
    a single band. *)
Definition multiply {V} `{Numeric V} (b : Band V) (k : V) : Band V :=
  map_px (fun v => mul v k) b.

Definition divide_by {V} `{Numeric V} (b : Band V) (k : V) : Band V :=
  map_px (fun v => div v k) b.

Definition cos_ {V} `{Trig V} (b : Band V) : Band V := map_px cos b.

Definition sin_ {V} `{Trig V} (b : Band V) : Band V := map_px sin b.

(** The argument of [Export.image.toDrive]. *)
Record drive_export (V : Type) : Type := DriveExport {
  image : Image V;
  description : string;
  folder : string;
  fileNamePrefix : string;
  scale : Q;
  crs : string;
  maxPixels : Z
}.
Arguments DriveExport {V}.
Arguments image {V}.

Section Script.
Context {V : Type} `{Numeric V} `{Trig V}.

(** The mosaicked, clipped, float DEM, and Earth Engine's slope and aspect
    algorithms (each yields one band of degrees). *)
Context (dem : Image V).
Context (Terrain_slope Terrain_aspect : Image V -> Raster V).

Definition slope : Band V := rename (named (Terrain_slope dem) "slope") "slope".

Definition aspect : Band V := rename (named (Terrain_aspect dem) "aspect") "aspect".

Definition northness : Band V :=
  rename (cos_ (divide_by (multiply aspect pi) (lit 180))) "northness".

Definition eastness : Band V :=
  rename (sin_ (divide_by (multiply aspect pi) (lit 180))) "eastness".

Definition terrain : Image V :=
  addBands (addBands (addBands dem [rename slope "slope"]) [northness])
           [rename aspect "aspect"].

Definition terrain_metrics_export : drive_export V :=
  {| image := terrain;
     description := "terrain_metrics_export";
     folder := "terrain_exports";
     fileNamePrefix := "terrain_metrics";
     scale := 30;
     crs := "EPSG:3348";
     maxPixels := 10 ^ 13 |}.

End Script.

(** ** A sample DEM: 1200 m everywhere, facing due east *)

Definition flat_dem : Image R := [constant_band "elevation" 1200%R].

Definition no_slope (_ : Image R) : Raster R := fun _ => Some 0%R.

Definition facing_east (_ : Image R) : Raster R := fun _ => Some 90%R.

End Terrain.

(* ===================================================================== *)
(** * sentinel_indices_and_masks.js: addNDRS *)
(* ===================================================================== *)

Module SentinelNDRS.
Import EE JS Sentinel.

Local Open Scope string_scope.
Local Open Scope list_scope.

(** [image.clamp(low, high)] on a pixel value. *)
Class Clamp (V : Type) : Type := { clamp : V -> V -> V -> V }.

#[export] Instance Clamp_R : Clamp R := {
  clamp := fun low high v => Rmax low (Rmin high v)
}.

(** [ee.String(s).replace(regex, replacement)] for a pattern without
    metacharacters: the first occurrence is replaced. *)
Fixpoint replace (regex replacement s : string) : string :=
  if String.prefix regex s then
    (replacement
     ++ String.substring (String.length regex)
                         (String.length s - String.length regex) s)%string
  else
    match s with
    | EmptyString => EmptyString
    | String a s' => String a (replace regex replacement s')
    end.

(** A number used as an operand of an expression: the same value at every
    pixel. *)
Definition constant {V} (v : V) : Raster V := fun _ => Some v.

(** The suffix of the band name:
    [If(forestTypes.length === 1,
        If(forestTypes[0] === 210, '_coni',
           If(forestTypes[0] === 220, '_deci', '_mixed')),
        '_mixed')]. *)
Definition suffix_of (forestTypes : list Z) : string :=
  Algorithms_If (length forestTypes =? 1)%nat
    (Algorithms_If (bool_decide (head forestTypes = Some 210%Z)) "_coni"
       (Algorithms_If (bool_decide (head forestTypes = Some 220%Z)) "_deci"
          "_mixed"))
    "_mixed".

Section NDRS.
Context {V : Type} `{Numeric V} `{Clamp V}.

(** The land-cover module the function requires is not part of this file:
    [forest_minMax image DRS forestTypes] stands for the minimum and maximum
    of the DRS band over the pixels whose forest class (for the year of the
    image) is one of [forestTypes], as [reduceRegion] with
    [ee.Reducer.minMax()] returns them; it fails when the year, the land
    cover or the statistics are not there. *)
Context (forest_minMax : Image V -> Band V -> list Z -> Computed (V * V)).

Definition addNDRS (image : Image V) (forestTypes : option (list Z))
  : Computed (Image V) :=
  (* forestTypes = forestTypes || [210, 220, 230] *)
  let forestTypes := match forestTypes with
                     | Some types => types
                     | None => [210; 220; 230]%Z
                     end in
  DRS <~ select image "DRS" ;;
  minMax <~ forest_minMax image DRS forestTypes ;;
  let DRSmin := fst minMax in
  let DRSmax := snd minMax in
  let adjustedDRS := map_px (clamp DRSmin DRSmax) DRS in
  r <~ expression ((Var "DRS" - Var "DRSmin") / (Var "DRSmax" - Var "DRSmin"))%E
         [("DRS", b_px adjustedDRS); ("DRSmin", constant DRSmin);
          ("DRSmax", constant DRSmax)] ;;
  let NDRS := named r "NDRS" in
  let suffix := suffix_of forestTypes in
  let NDRS := rename NDRS (b_name NDRS ++ suffix)%string in
  let NDRS := rename NDRS (replace "NDRS_coni_deci_mixed" "NDRS_mixed"
                                   (b_name NDRS)) in
  Done (addBands image [NDRS]).

(** The three calls of the Sentinel-2 time-series script, one after the
    other on each image: coniferous, broadleaf, then the default. *)
Definition add_all_NDRS (image : Image V) : Computed (Image V) :=
  image1 <~ addNDRS image (Some [210%Z]) ;;
  image2 <~ addNDRS image1 (Some [220%Z]) ;;
  addNDRS image2 None.

End NDRS.

(** The name of the band for a given list of forest types. *)
Definition ndrs_band_name (forestTypes : list Z) : string :=
  if decide (forestTypes = [210%Z]) then "NDRS_coni"
  else if decide (forestTypes = [220%Z]) then "NDRS_deci"
  else "NDRS_mixed".

(** [forestTypes || [210, 220, 230]]: an array, even an empty one, is kept. *)
Definition or_default (forestTypes : option (list Z)) : list Z :=
  match forestTypes with
  | Some types => types
  | None => [210; 220; 230]%Z
  end.

(** ** Sample: a DRS band and forest statistics 0.1 .. 0.5 *)

Definition drs_image : Image R :=
  [ constant_band "B4" 0.05%R; constant_band "B11" 0.2%R;
    constant_band "DRS" 0.3%R ].

Definition sample_minMax (_ : Image R) (_ : Band R) (_ : list Z)
  : Computed (R * R) :=
  Done (0.1%R, 0.5%R).

End SentinelNDRS.

(* ===================================================================== *)
(** * Cloud masking followed by an index *)
(* ===================================================================== *)

Module SentinelPipeline.
Import EE JS Sentinel.

Local Open Scope string_scope.
Local Open Scope list_scope.

(** The two functions of the module composed:
    [addNDVI(maskS2clouds(image))]. *)
Definition masked_NDVI {V} `{Numeric V} (image : Image Z) : Computed (Image V) :=
  masked <~ maskS2clouds image ;;
  addNDVI masked.

(** Bits 10 and 11 of a QA60 value are both zero. *)
Definition clear (qa : Z) : bool :=
  negb (Z.testbit qa 10) && negb (Z.testbit qa 11).

(** Raw digital numbers: red, near infrared and QA60, with a clear pixel at
    (0,0), an opaque cloud at (0,1), cirrus at (1,0). *)
Definition raw_s2 : Image Z :=
  [ constant_band "B4" 1500%Z;
    constant_band "B8" 4500%Z;
    {| b_name := "QA60";
       b_px := fun p => match p with
                        | (0, 1)%Z => Some 1024%Z
                        | (1, 0)%Z => Some 2048%Z
                        | _ => Some 0%Z
                        end |} ].

End SentinelPipeline.

(* ===================================================================== *)
(** * The export calls of the MODIS and Sentinel-2 scripts *)
(* ===================================================================== *)

Module ExportCallers.
Import JS Exporting.

Local Open Scope string_scope.
Local Open Scope list_scope.

(** ToString, for the values a 'year' property holds: null, undefined,
    booleans, strings and integers of at most 2^53 in magnitude, which
    JavaScript prints in plain decimal.  Larger numbers (printed with an
    exponent from 10^21 on) and objects other than plain ones are outside
    what is modelled. *)
Definition to_string (v : js_value) : string :=
  match v with
  | JsUndefined => "undefined"
  | JsNull => "null"
  | JsBoolean true => "true"
  | JsBoolean false => "false"
  | JsNumber n => NilZero.string_of_int (Z.to_int n)
  | JsString s => s
  | JsObject => "[object Object]"
  end.

(** [a || b] *)
Definition or_else (a b : js_value) : js_value := if truthy a then a else b.

(** ['text' + v] *)
Definition concat (text : string) (v : js_value) : js_value :=
  JsString (text ++ to_string v).

(** The MODIS script:
    [var year = img.date().format('yyyy').getInfo();
     return 'MODIS_MCD12Q2_' + year;] *)
Definition MODIS_fileNameFn (year_getInfo : ee_image -> completion string)
    (img : ee_image) : completion js_value :=
  match year_getInfo img with
  | Normal year => Normal (concat "MODIS_MCD12Q2_" (JsString year))
  | Throw e => Throw e
  end.

(** [utils.exportImageCollection(dataset, aoi, folder, scale, crs, fileNameFn)]
    with [folder = 'gee_exports'], [scale = 500], [crs = 'EPSG:4326']. *)
Definition MODIS_export (dataset : collection) (aoi : geometry)
    (year_getInfo : ee_image -> completion string) : Js unit :=
  exportImageCollection dataset aoi "gee_exports" 500 "EPSG:4326"
                        (MODIS_fileNameFn year_getInfo).

(** The Sentinel-2 script:
    [var year = img.get('year').getInfo() || 'unknown';
     return 'sentinel2_multiband_' + year;] *)
Definition sentinel2_fileNameFn (year_getInfo : ee_image -> completion js_value)
    (img : ee_image) : completion js_value :=
  match year_getInfo img with
  | Normal v => let year := or_else v (JsString "unknown") in
                Normal (concat "sentinel2_multiband_" year)
  | Throw e => Throw e
  end.

(** ... with [folder = 'gee_exports'], [scale = 10], [crs = 'EPSG:4326']. *)
Definition sentinel2_export (s2 : collection) (aoi : geometry)
    (year_getInfo : ee_image -> completion js_value) : Js unit :=
  exportImageCollection s2 aoi "gee_exports" 10 "EPSG:4326"
                        (sentinel2_fileNameFn year_getInfo).

(** ** Samples *)

(** Three MODIS years. *)
Definition modis_years (img : ee_image) : completion string :=
  match img with
  | ListGet 0 => Normal "2001"
  | ListGet 1 => Normal "2002"
  | _ => Normal "2003"
  end.

(** Three Sentinel-2 images, the second without a 'year' property. *)
Definition s2_years (img : ee_image) : completion js_value :=
  match img with
  | ListGet 0 => Normal (JsNumber 2019)
  | ListGet 1 => Normal JsNull
  | _ => Normal (JsString "2021")
  end.

(** A collection whose size cannot be fetched. *)
Definition unreachable : collection :=
  {| size_getInfo := Throw (Error "Collection.size: request timed out.");
     bandNames_getInfo := fun _ => Normal ["B4"; "B5"] |}.

(** A file-name function that returns nothing for band B5. *)
Definition name_except_B5 (img : ee_image) (band : string)
  : completion js_value :=
  if String.eqb band "B5" then Normal JsUndefined else name_by_band img band.

(** A client with one task queued and one line printed already. *)
Definition busy : client :=
  {| tasks := [task alberta "earlier" 30 "EPSG:4326" (ListGet 7) "earlier_export"];
     console := [["Terrain Metrics"]] |}.

End ExportCallers.

(* ===================================================================== *)
(** * utils: splitAOIIntoTiles *)
(* ===================================================================== *)

From Stdlib Require Qround.

Module Utils.

Local Open Scope string_scope.
Local Open Scope list_scope.

(** ** Tiles *)

Definition point : Type := (Q * Q)%type.

(** [ee.Geometry.Rectangle([xMin, yMin, xMax, yMax])] *)
Record rectangle : Type := Rectangle {
  xMin : Q;
  yMin : Q;
  xMax : Q;
  yMax : Q
}.

(** [ee.List.sequence(0, last)] for an integer [last]: 0, 1, ..., last, and
    the empty list when [last] is negative. *)
Definition sequence (last : Z) : list Z :=
  map Z.of_nat (seq 0 (Z.to_nat (last + 1))).

Section Tiles.

(** [a.distance(b)] between two points, in metres. *)
Context (distance : point -> point -> Q).

(** The AOI enters through the corners of its bounds: [coords.get(0)], the
    bottom left, and [coords.get(2)], the top right.  [tileSize] is not
    zero. *)
Definition splitAOIIntoTiles (bottomLeft topRight : point) (tileSize : Q)
  : list rectangle :=
  let aoiWidth := distance bottomLeft (fst topRight, snd bottomLeft) in
  let aoiHeight := distance bottomLeft (fst bottomLeft, snd topRight) in
  let numTilesX := Qround.Qceiling (aoiWidth / tileSize) in
  let numTilesY := Qround.Qceiling (aoiHeight / tileSize) in
  flat_map (fun i =>
    map (fun j =>
      let x := (fst bottomLeft + inject_Z i * tileSize)%Q in
      let y := (snd bottomLeft + inject_Z j * tileSize)%Q in
      Rectangle x y (x + tileSize)%Q (y + tileSize)%Q)
      (sequence (numTilesY - 1)))
    (sequence (numTilesX - 1)).

End Tiles.

End Utils.

(* ===================================================================== *)
(** * The MODIS script: applyScaling *)
(* ===================================================================== *)

Module Modis.
Import EE Terrain.

Local Open Scope string_scope.
Local Open Scope list_scope.

(** [dst.addBands(src, null, true)], with [overwrite = true]: a band of
    [src] whose name [dst] has takes the place of that band; any other is
    appended. *)
Definition replace_band {V} (b : Band V) (image : Image V) : Image V :=
  map (fun b' => if String.eqb (b_name b') (b_name b) then b else b') image.

Definition addBands_overwrite {V} (dst src : Image V) : Image V :=
  fold_left (fun acc b =>
               if has_name (bandNames acc) (b_name b) then replace_band b acc
               else acc ++ [b])
            src dst.

Section Scaling.
Context {V : Type} `{Numeric V}.

(** [image.select([name]).multiply(factor).rename(name)] *)
Definition scaled (image : Image V) (name : string) (factor : Q)
  : Computed (Image V) :=
  b <~ select image name ;;
  Done [rename (multiply b (lit factor)) name].

(** Image properties ([copyProperties]) are not modelled. *)
Definition applyScaling (image : Image V) : Computed (Image V) :=
  min1 <~ scaled image "EVI_Minimum_1" (1 # 10000) ;;
  min2 <~ scaled image "EVI_Minimum_2" (1 # 10000) ;;
  amp1 <~ scaled image "EVI_Amplitude_1" (1 # 10000) ;;
  amp2 <~ scaled image "EVI_Amplitude_2" (1 # 10000) ;;
  area1 <~ scaled image "EVI_Area_1" (1 # 10) ;;
  area2 <~ scaled image "EVI_Area_2" (1 # 10) ;;
  let scaledBands :=
    addBands (addBands (addBands (addBands (addBands min1 min2) amp1) amp2)
                       area1) area2 in
  Done (addBands_overwrite image scaledBands).

(** ** Vocabulary *)

(** The factor the function applies to a band, by the band's name. *)
Definition scale_factor (name : string) : option Q :=
  if has_name ["EVI_Minimum_1"; "EVI_Minimum_2";
               "EVI_Amplitude_1"; "EVI_Amplitude_2"] name
  then Some (1 # 10000)
  else if has_name ["EVI_Area_1"; "EVI_Area_2"] name then Some (1 # 10)
  else None.

Definition rescale (b : Band V) : Band V :=
  match scale_factor (b_name b) with
  | Some factor => rename (multiply b (lit factor)) (b_name b)
  | None => b
  end.

End Scaling.

Definition scaled_names : list string :=
  ["EVI_Minimum_1"; "EVI_Minimum_2"; "EVI_Amplitude_1"; "EVI_Amplitude_2";
   "EVI_Area_1"; "EVI_Area_2"].

(** ** Sample: the six EVI bands and a date band *)

Definition mcd12q2 : Image R :=
  [ constant_band "Greenup_1" 19100%R;
    constant_band "EVI_Minimum_1" 1500%R;
    constant_band "EVI_Minimum_2" 1400%R;
    constant_band "EVI_Amplitude_1" 3000%R;
    constant_band "EVI_Amplitude_2" 2500%R;
    constant_band "EVI_Area_1" 120%R;
    constant_band "EVI_Area_2" 90%R ].

End Modis.

(* ===================================================================== *)
(** * Properties of the mosaicking functions *)
(* ===================================================================== *)

Module MosaicTheory.
Import Mosaic.
Local Open Scope string_scope.
Local Open Scope list_scope.

(** ** Indexing: [x[i:j]] is a slice *)

Lemma subset_seq {A} (x : list A) (m i : nat) :
  (i + m <= length x)%nat ->
  subset x (seq (S i) m) = map Some (take m (drop i x)).
Proof.
  revert i. induction m as [|m IH]; intros i Hlen.
  - reflexivity.
  - destruct (lookup_lt_is_Some_2 x i) as [a Ha]; [lia|].
    cbn [seq subset flat_map]. fold (subset x (seq (S (S i)) m)).
    rewrite IH by lia. rewrite (drop_S x a i Ha). cbn. now rewrite Ha.
Qed.

Lemma subset_colon {A} (x : list A) (i j : nat) :
  (1 <= i)%nat -> (i <= j)%nat -> (j <= length x)%nat ->
  subset x (colon i j) = map Some (take (j - i + 1) (drop (i - 1) x)).
Proof.
  intros Hi Hij Hj. unfold colon.
  destruct (Nat.leb_spec i j); [|lia].
  destruct i as [|i]; [lia|].
  rewrite subset_seq by lia. now replace (S i - 1)%nat with i by lia.
Qed.

Lemma batch_files_chunk (raster_files : list string) (b k : nat) :
  (1 <= b)%nat -> (k * b < length raster_files)%nat ->
  batch_files raster_files b (length raster_files) (1 + k * b)
  = map Some (chunk b raster_files k).
Proof.
  intros Hb Hk. unfold batch_files, chunk.
  rewrite subset_colon by lia.
  replace (1 + k * b - 1)%nat with (k * b)%nat by lia.
  f_equal.
  destruct (Nat.le_gt_cases (1 + k * b + b - 1) (length raster_files)) as [Hle|Hgt].
  - rewrite Nat.min_l by lia. f_equal. lia.
  - rewrite Nat.min_r by lia.
    rewrite !take_ge; [reflexivity| |]; rewrite length_drop; lia.
Qed.

Lemma concat_chunks {A} (b : nat) (x : list A) (q : nat) :
  concat (map (chunk b x) (seq 0 q)) = take (q * b) x.
Proof.
  induction q as [|q IH]; [reflexivity|].
  rewrite seq_S, map_app, concat_app, IH. cbn [map concat Nat.add].
  rewrite app_nil_r. unfold chunk. rewrite take_take_drop. f_equal. lia.
Qed.

Lemma chunk_length {A} (b : nat) (x : list A) (k : nat) :
  length (chunk b x k) = Nat.min b (length x - k * b).
Proof. unfold chunk. now rewrite length_take, length_drop. Qed.

Lemma seq_by_starts (n b : nat) :
  (1 <= n)%nat -> (1 <= b)%nat ->
  seq_by 1 n b = Ok (map (fun k => 1 + k * b)%nat (seq 0 (S ((n - 1) / b)))).
Proof.
  intros Hn Hb. unfold seq_by.
  destruct (Nat.eqb_spec 1 n) as [<-|Hne].
  - cbn [Nat.sub]. now rewrite Nat.Div0.div_0_l.
  - destruct (Nat.eqb_spec b 0); [lia|].
    destruct (Nat.ltb_spec n 1); [lia|]. reflexivity.
Qed.

(** ** Running the loop *)

Lemma logs_logs es1 es2 w : logs es2 (logs es1 w) = logs (es1 ++ es2) w.
Proof. unfold logs; cbn. now rewrite app_assoc. Qed.

Lemma logs_nil w : logs [] w = w.
Proof. destruct w; unfold logs; cbn. now rewrite app_nil_r. Qed.

Lemma open_all_ok fs (paths : list string) rs :
  Forall2 (fun p r => fs !! p = Some r) paths rs ->
  open_all fs (map Some paths) = Some rs.
Proof.
  induction 1 as [|p r ps rs' Hp _ IH]; [reflexivity|].
  cbn. now rewrite Hp, IH.
Qed.

Lemma existing_rasters (fs : gmap string SpatRaster) (paths : list string) :
  Forall (fun p => is_Some (fs !! p)) paths ->
  exists rs, Forall2 (fun p r => fs !! p = Some r) paths rs.
Proof.
  induction 1 as [|p ps [r Hr] _ [rs IH]].
  - exists []. constructor.
  - exists (r :: rs). now constructor.
Qed.

Lemma chunk_Forall2 {A B} (P : A -> B -> Prop) b k xs ys :
  Forall2 P xs ys -> Forall2 P (chunk b xs k) (chunk b ys k).
Proof. intros H. unfold chunk. now apply Forall2_take, Forall2_drop. Qed.

Lemma chunk_nonempty {A} b (x : list A) k :
  (1 <= b)%nat -> (k * b < length x)%nat -> chunk b x k <> [].
Proof.
  intros Hb Hk Hnil. apply (f_equal length) in Hnil.
  rewrite chunk_length in Hnil. cbn in Hnil. lia.
Qed.

Section Loop.
Context (raster_files : list string) (rasters : list SpatRaster).
Context (f : agg) (b : nat).
Context (fs : gmap string SpatRaster).
Hypothesis Hb : (1 <= b)%nat.
Hypothesis Hread : Forall2 (fun p r => fs !! p = Some r) raster_files rasters.

Let n := length raster_files.

Lemma batch_step_run (acc : option SpatRaster) (k : nat) (w : world) :
  files w = fs -> (k * b < n)%nat ->
  batch_step raster_files f b n acc (1 + k * b) w
  = (logs (batch_events (is_null acc) (map Some (chunk b raster_files k))) w,
     Ok (merge_step f acc (chunk b rasters k))).
Proof.
  intros Hw Hk. unfold batch_step, bind.
  subst n. rewrite batch_files_chunk by assumption.
  unfold sprc. rewrite Hw.
  rewrite (open_all_ok fs _ (chunk b rasters k)) by now apply chunk_Forall2.
  assert (Hlen : length (chunk b rasters k) = length (chunk b raster_files k)).
  { symmetry. eapply Forall2_length, chunk_Forall2, Hread. }
  assert (Hne : chunk b rasters k <> []).
  { intros E. rewrite E in Hlen. cbn in Hlen. symmetry in Hlen.
    apply length_zero_iff_nil in Hlen. revert Hlen. now apply chunk_nonempty. }
  destruct (chunk b rasters k) as [|r rs] eqn:E; [congruence|].
  unfold mosaic_collection, batch_events. rewrite length_map, Hlen.
  destruct acc as [fm|]; cbn; unfold logs, log; cbn;
    rewrite <- !app_assoc; reflexivity.
Qed.

Lemma for_each_run (ks : list nat) (acc : option SpatRaster) (w : world) :
  files w = fs -> Forall (fun k => k * b < n)%nat ks ->
  for_each (batch_step raster_files f b n) (map (fun k => 1 + k * b)%nat ks) acc w
  = (logs (batch_trace (is_null acc)
             (map (fun k => map Some (chunk b raster_files k)) ks)) w,
     Ok (fold_left (merge_step f) (map (chunk b rasters) ks) acc)).
Proof.
  intros Hw Hks. revert acc w Hw.
  induction Hks as [|k ks Hk _ IH]; intros acc w Hw.
  - cbn. now rewrite logs_nil.
  - cbn [map for_each]. unfold bind at 1.
    rewrite batch_step_run by assumption.
    rewrite IH by exact Hw.
    cbn [batch_trace fold_left]. rewrite logs_logs.
    assert (Hsome : is_null (merge_step f acc (chunk b rasters k)) = false).
    { assert (Hne : chunk b rasters k <> []).
      { apply chunk_nonempty; [assumption|].
        erewrite <- Forall2_length by exact Hread. exact Hk. }
      destruct (chunk b rasters k); [congruence|]. reflexivity. }
    now rewrite Hsome.
Qed.
Lemma merge_fold_some (cs : list (list SpatRaster)) (m : SpatRaster) :
  exists m', fold_left (merge_step f) cs (Some m) = Some m'.
Proof.
  revert m. induction cs as [|c cs IH]; intros m; [now exists m|].
  cbn [fold_left]. destruct c as [|r rs]; cbn [merge_step]; apply IH.
Qed.

Lemma starts_in_range (k : nat) :
  (1 <= n)%nat -> k ∈ seq 0 (S ((n - 1) / b)) -> (k * b < n)%nat.
Proof.
  intros Hn Hk. apply elem_of_seq in Hk.
  assert (b * ((n - 1) / b) <= n - 1)%nat by apply Nat.Div0.mul_div_le.
  nia.
Qed.

Lemma batches_run (export_filename : string) (w : world) :
  raster_files <> [] -> files w = fs ->
  exists m,
    fold_left (merge_step f)
              (map (chunk b rasters) (seq 0 (S ((n - 1) / b)))) None = Some m
    /\ mosaic_rasters_in_batches raster_files export_filename f b w
       = ({| files := <[export_filename := m]> fs;
             calls := calls w
                      ++ batch_trace true
                           (map (fun k => map Some (chunk b raster_files k))
                                (seq 0 (S ((n - 1) / b))))
                      ++ [EvWriteRaster export_filename] |},
          Ok m).
Proof.
  intros Hne Hw.
  assert (Hn : (1 <= n)%nat).
  { subst n. destruct raster_files; [congruence|cbn; lia]. }
  assert (Hks : Forall (fun k => k * b < n)%nat (seq 0 (S ((n - 1) / b)))).
  { apply Forall_forall. intros k Hk. now apply starts_in_range. }
  assert (Hfold : exists m,
    fold_left (merge_step f)
              (map (chunk b rasters) (seq 0 (S ((n - 1) / b)))) None = Some m).
  { cbn [seq map fold_left].
    assert (Hc : chunk b rasters 0 <> []).
    { apply chunk_nonempty; [assumption|].
      erewrite <- Forall2_length by exact Hread. fold n. lia. }
    destruct (chunk b rasters 0) as [|r rs]; [congruence|].
    cbn [merge_step]. apply merge_fold_some. }
  destruct Hfold as [m Hm]. exists m. split; [exact Hm|].
  unfold mosaic_rasters_in_batches. fold n.
  destruct (Nat.eqb_spec n 0); [lia|].
  rewrite seq_by_starts by assumption.
  unfold bind at 1. rewrite for_each_run by assumption.
  rewrite Hm. cbn [is_null]. unfold bind, writeRaster, ret, logs. cbn.
  rewrite Hw, <- app_assoc. reflexivity.
Qed.

Lemma list_run (export_filename : string) (w : world) :
  raster_files <> [] -> files w = fs ->
  exists m,
    mosaic_list f rasters = Some m
    /\ mosaic_rasters_in_list raster_files export_filename f w
       = ({| files := <[export_filename := m]> fs;
             calls := calls w
                      ++ [EvSprc (map Some raster_files);
                          EvMosaicCollection (length raster_files);
                          EvWriteRaster export_filename] |},
          Ok m).
Proof.
  intros Hne Hw.
  assert (Hlen : length raster_files = length rasters)
    by (eapply Forall2_length, Hread).
  destruct rasters as [|r rs] eqn:E.
  { destruct raster_files; [congruence|discriminate]. }
  exists (mosaic_of f r rs). split; [reflexivity|].
  unfold mosaic_rasters_in_list.
  destruct (Nat.eqb_spec (length raster_files) 0) as [H0|_].
  { rewrite Hlen in H0. discriminate. }
  unfold bind, sprc. rewrite Hw, (open_all_ok fs _ (r :: rs)) by exact Hread.
  unfold mosaic_collection, writeRaster, ret, log. cbn. cbn in Hlen.
  rewrite <- Hlen, <- !app_assoc, Hw. reflexivity.
Qed.
End Loop.

Lemma batches_as_chunks (raster_files : list string) (b : nat) (ks : list nat) :
  (1 <= b)%nat -> Forall (fun k => k * b < length raster_files)%nat ks ->
  map (batch_files raster_files b (length raster_files))
      (map (fun k => 1 + k * b)%nat ks)
  = map (fun k => map Some (chunk b raster_files k)) ks.
Proof.
  intros Hb Hks. rewrite map_map.
  induction Hks as [|k ks Hk _ IH]; [reflexivity|].
  cbn [map]. now rewrite IH, batch_files_chunk.
Qed.

(** C2.  For a non-empty list of [n] existing raster files and a batch size
    of at least one, the loop of [mosaic_rasters_in_batches] visits start
    indices [starts] such that: the batch that begins at index [i] is exactly
    the files at (1-based) positions [i .. min(i + batch_size - 1, n)]; the
    batches, concatenated in loop order, are the input list, so every file is
    in exactly one batch; every batch has between one and [batch_size] files;
    the terra calls made are, batch after batch, read / mosaic / fold into
    the running mosaic / clear temporary files, followed by one write; and
    the raster returned, which is also the raster written to
    [export_filename], is the running mosaic after the last batch: the
    mosaic of the first batch, into which the mosaic of each later batch has
    been folded, in loop order, with [terra::mosaic(final_mosaic,
    batch_mosaic, fun)]. *)
Theorem batches_partition_input
    (raster_files : list string) (export_filename : string) (f : agg)
    (batch_size : nat) (w : world) :
  raster_files <> [] -> (1 <= batch_size)%nat ->
  Forall (fun p => is_Some (files w !! p)) raster_files ->
  let n := length raster_files in
  exists starts,
    seq_by 1 n batch_size = Ok starts
    /\ Forall (fun i =>
         (1 <= i <= n)%nat /\
         batch_files raster_files batch_size n i
         = map Some (take (Nat.min (i + batch_size - 1) n - i + 1)
                          (drop (i - 1) raster_files))) starts
    /\ concat (map (batch_files raster_files batch_size n) starts)
       = map Some raster_files
    /\ Forall (fun i =>
         (1 <= length (batch_files raster_files batch_size n i) <= batch_size)%nat)
         starts
    /\ calls (fst (mosaic_rasters_in_batches
                     raster_files export_filename f batch_size w))
       = calls w
         ++ batch_trace true (map (batch_files raster_files batch_size n) starts)
         ++ [EvWriteRaster export_filename]
    /\ exists (batches : list (list SpatRaster)) (final_mosaic : SpatRaster),
         Forall2 (fun i rsrc =>
                    open_all (files w)
                             (batch_files raster_files batch_size n i)
                    = Some rsrc) starts batches
         /\ fold_left (fun running rsrc =>
                         match rsrc with
                         | [] => running
                         | r :: rs =>
                             let batch_mosaic := mosaic_of f r rs in
                             Some (match running with
                                   | None => batch_mosaic
                                   | Some final => mosaic_of f final [batch_mosaic]
                                   end)
                         end) batches None
            = Some final_mosaic
         /\ snd (mosaic_rasters_in_batches
                   raster_files export_filename f batch_size w)
            = Ok final_mosaic
         /\ files (fst (mosaic_rasters_in_batches
                          raster_files export_filename f batch_size w))
            = <[export_filename := final_mosaic]> (files w).
Proof.
  intros Hne Hb Hex n.
  assert (Hn : (1 <= n)%nat).
  { subst n. destruct raster_files; [congruence|cbn; lia]. }
  set (q := ((n - 1) / batch_size)%nat).
  exists (map (fun k => 1 + k * batch_size)%nat (seq 0 (S q))).
  assert (Hks : Forall (fun k => k * batch_size < n)%nat (seq 0 (S q))).
  { apply Forall_forall. intros k Hk. now apply starts_in_range. }
  destruct (existing_rasters _ _ Hex) as [rasters Hread].
  destruct (batches_run raster_files rasters f batch_size (files w) Hb Hread
              export_filename w Hne eq_refl) as (m & Hm & Hrun).
  split; [now apply seq_by_starts|].
  split; [|split; [|split; [|split]]].
  - apply Forall_forall. intros i Hi.
    apply list_elem_of_fmap in Hi as (k & -> & Hk).
    rewrite Forall_forall in Hks. specialize (Hks k Hk).
    split; [lia|]. unfold batch_files. subst n. apply subset_colon; lia.
  - subst n. rewrite batches_as_chunks by assumption.
    rewrite <- (map_map (chunk batch_size raster_files) (map Some)).
    rewrite <- concat_map, concat_chunks. f_equal.
    apply take_ge.
    assert (length raster_files - 1 < batch_size * S q)%nat
      by (apply Nat.mul_succ_div_gt; lia).
    lia.
  - apply Forall_forall. intros i Hi.
    apply list_elem_of_fmap in Hi as (k & -> & Hk).
    rewrite Forall_forall in Hks. specialize (Hks k Hk).
    subst n. rewrite batch_files_chunk, length_map, chunk_length by assumption.
    lia.
  - rewrite Hrun. cbn [fst calls]. subst n q.
    now rewrite batches_as_chunks.
  - exists (map (chunk batch_size rasters) (seq 0 (S q))), m.
    split; [|split; [exact Hm|split; rewrite Hrun; reflexivity]].
    apply Forall2_fmap, Forall_Forall2_diag, Forall_forall.
    intros k Hk. rewrite Forall_forall in Hks. specialize (Hks k Hk).
    subst n. rewrite batch_files_chunk by assumption.
    apply open_all_ok, chunk_Forall2, Hread.
Qed.

(** ** Empty inputs *)

Lemma list_files_nil (fs : gmap string SpatRaster) (dir : string) :
  (forall p, is_Some (fs !! p) -> String.prefix dir p = true ->
             endsWith p ".tif" = false) ->
  list_files fs dir = [].
Proof.
  intros Hno. unfold list_files.
  match goal with |- ?l = [] => destruct l as [|p l'] eqn:E end; [reflexivity|].
  assert (Hp : p ∈ p :: l') by constructor.
  rewrite <- E in Hp. apply list_elem_of_filter in Hp as [HP Hin].
  rewrite merge_sort_Permutation in Hin.
  apply list_elem_of_fmap in Hin as ([p' r] & -> & Hin).
  apply elem_of_map_to_list in Hin. cbn in HP.
  apply Is_true_true, andb_true_iff in HP as [Hpre Hsuf].
  rewrite (Hno p') in Hsuf; [discriminate|eauto|exact Hpre].
Qed.

(** C9.  On an empty input each of the three functions stops with its error
    message, makes no terra call (so nothing is mosaicked) and leaves the
    files on disk, the one at [export_filename] included, exactly as they
    were: an empty [raster_files] for [mosaic_rasters_in_list] and
    [mosaic_rasters_in_batches], a directory below which no file name ends
    in ".tif" for [mosaic_rasters_in_directory]. *)
Theorem empty_input_stops_untouched
    (path_name export_filename : string) (f : agg) (batch_size : nat) (w : world) :
  (forall p, is_Some (files w !! p) ->
             String.prefix (with_slash path_name) p = true ->
             endsWith p ".tif" = false) ->
  mosaic_rasters_in_list [] export_filename f w
  = (w, Stop "No raster files provided for mosaicking.")
  /\ mosaic_rasters_in_batches [] export_filename f batch_size w
     = (w, Stop "No raster files provided for mosaicking.")
  /\ mosaic_rasters_in_directory path_name export_filename f w
     = (w, Stop "No .tif files found in the specified directory.").
Proof.
  intros Hno. split; [reflexivity|]. split; [reflexivity|].
  unfold mosaic_rasters_in_directory. fold (with_slash path_name).
  now rewrite (list_files_nil _ _ Hno).
Qed.

(** With three tiles on disk and no file below "scenes/". *)
Lemma empty_input_stops_untouched_witness :
  mosaic_rasters_in_list [] "tiles/a.tif" agg_mean world0
  = (world0, Stop "No raster files provided for mosaicking.")
  /\ mosaic_rasters_in_batches [] "tiles/a.tif" agg_mean 10 world0
     = (world0, Stop "No raster files provided for mosaicking.")
  /\ mosaic_rasters_in_directory "scenes" "tiles/a.tif" agg_mean world0
     = (world0, Stop "No .tif files found in the specified directory.").
Proof.
  apply (empty_input_stops_untouched "scenes" "tiles/a.tif" agg_mean 10 world0).
  intros p [r Hr] Hpre. unfold world0, disk0 in Hr. cbn [files] in Hr.
  repeat (apply lookup_insert_Some in Hr as [[<- _]|[_ Hr]]; [discriminate Hpre|]).
  rewrite lookup_empty in Hr. discriminate.
Defined.

(** ** Batched against one-pass mosaicking *)

(** C1.  The two functions do not return the same mosaic.  With the default
    aggregation, the mean, three overlapping tiles holding 0, 0 and 6 and a
    batch size of 2, both functions succeed; [mosaic_rasters_in_list]
    returns the mean of the three overlapping values, 2, and
    [mosaic_rasters_in_batches] returns 3: the mean of the first batch's
    mean, 0, and the second batch's mean, 6. *)
Lemma batches_differ_from_list_for_mean :
  exists w1 m1 w2 m2,
    mosaic_rasters_in_list tiles0 "out/mosaic.tif" agg_mean world0 = (w1, Ok m1)
    /\ mosaic_rasters_in_batches tiles0 "out/mosaic.tif" agg_mean 2 world0
       = (w2, Ok m2)
    /\ same_value (r_val m1 (0, 0)%Z) (Some 2%Q)
    /\ same_value (r_val m2 (0, 0)%Z) (Some 3%Q)
    /\ ~ raster_equiv m2 m1.
Proof.
  assert (Hread : Forall2 (fun p r => disk0 !! p = Some r) tiles0
                          [tile 0; tile 0; tile 6]).
  { repeat constructor; vm_compute; reflexivity. }
  destruct (list_run tiles0 _ agg_mean disk0 Hread "out/mosaic.tif" world0)
    as (m1 & Hm1 & Hrun1); [discriminate|reflexivity|].
  destruct (batches_run tiles0 _ agg_mean 2 disk0 ltac:(lia) Hread
              "out/mosaic.tif" world0)
    as (m2 & Hm2 & Hrun2); [discriminate|reflexivity|].
  eexists _, m1, _, m2. split; [exact Hrun1|]. split; [exact Hrun2|].
  cbn in Hm1, Hm2. injection Hm1 as <-. injection Hm2 as <-.
  split; [vm_compute; reflexivity|]. split; [vm_compute; reflexivity|].
  intros [_ Hval]. specialize (Hval (0, 0)%Z).
  vm_compute in Hval. discriminate Hval.
Qed.

(** Three files in batches of two: starts 1 and 3. *)
Lemma batches_partition_input_witness :
  exists starts,
    seq_by 1 3 2 = Ok starts
    /\ Forall (fun i =>
         (1 <= i <= 3)%nat /\
         batch_files tiles0 2 3 i
         = map Some (take (Nat.min (i + 2 - 1) 3 - i + 1) (drop (i - 1) tiles0)))
         starts
    /\ concat (map (batch_files tiles0 2 3) starts) = map Some tiles0
    /\ Forall (fun i => (1 <= length (batch_files tiles0 2 3 i) <= 2)%nat) starts
    /\ calls (fst (mosaic_rasters_in_batches tiles0 "out/mosaic.tif" agg_mean 2 world0))
       = calls world0
         ++ batch_trace true (map (batch_files tiles0 2 3) starts)
         ++ [EvWriteRaster "out/mosaic.tif"]
    /\ exists (batches : list (list SpatRaster)) (final_mosaic : SpatRaster),
         Forall2 (fun i rsrc =>
                    open_all (files world0) (batch_files tiles0 2 3 i)
                    = Some rsrc) starts batches
         /\ fold_left (fun running rsrc =>
                         match rsrc with
                         | [] => running
                         | r :: rs =>
                             let batch_mosaic := mosaic_of agg_mean r rs in
                             Some (match running with
                                   | None => batch_mosaic
                                   | Some final =>
                                       mosaic_of agg_mean final [batch_mosaic]
                                   end)
                         end) batches None
            = Some final_mosaic
         /\ snd (mosaic_rasters_in_batches tiles0 "out/mosaic.tif" agg_mean 2 world0)
            = Ok final_mosaic
         /\ files (fst (mosaic_rasters_in_batches tiles0 "out/mosaic.tif"
                                                  agg_mean 2 world0))
            = <["out/mosaic.tif" := final_mosaic]> (files world0).
Proof.
  apply (batches_partition_input tiles0 "out/mosaic.tif" agg_mean 2 world0).
  - discriminate.
  - lia.
  - repeat constructor; eexists; vm_compute; reflexivity.
Defined.

Example batches_of_three_by_two :
  map (batch_files tiles0 2 3) [1; 3]%nat
  = [[Some "tiles/a.tif"; Some "tiles/b.tif"]; [Some "tiles/c.tif"]].
Proof. reflexivity. Qed.

End MosaicTheory.

(* ===================================================================== *)
(** * Properties of the Earth Engine primitives *)
(* ===================================================================== *)

Module EETheory.
Import EE.
Local Open Scope string_scope.
Local Open Scope list_scope.

(** ** Selecting and adding bands *)

Lemma has_name_In names name : has_name names name = true <-> In name names.
Proof.
  unfold has_name. rewrite existsb_exists. split.
  - intros (x & Hx & E). apply String.eqb_eq in E. now subst.
  - intros Hin. exists name. split; [assumption|apply String.eqb_refl].
Qed.

Lemma select_present {V} (image : Image V) (name : string) :
  In name (bandNames image) ->
  exists b, select image name = Done b /\ b_name b = name /\ In b image.
Proof.
  intros Hin. unfold select.
  destruct (List.find _ image) as [b|] eqn:E.
  - apply find_some in E as [Hb E]. apply String.eqb_eq in E. eauto.
  - exfalso. apply in_map_iff in Hin as (b & Hb & Hin).
    apply (find_none _ _ E) in Hin. cbn in Hin. rewrite Hb, String.eqb_refl in Hin.
    discriminate.
Qed.

Lemma select_absent {V} (image : Image V) (name : string) :
  ~ In name (bandNames image) ->
  select image name
  = Failed ("Image.select: Pattern '" ++ name ++ "' did not match any bands.").
Proof.
  intros Hnin. unfold select.
  destruct (List.find _ image) as [b|] eqn:E; [|reflexivity].
  apply find_some in E as [Hb E]. apply String.eqb_eq in E.
  exfalso. apply Hnin, in_map_iff. eauto.
Qed.

Lemma fresh_name_free names name :
  ~ In name names -> fresh_name names name = name.
Proof.
  intros Hnin. unfold fresh_name.
  destruct (has_name names name) eqn:E; [|reflexivity].
  apply has_name_In in E. contradiction.
Qed.

Lemma addBands_one {V} (image : Image V) (b : Band V) :
  addBands image [b]
  = image ++ [rename b (fresh_name (bandNames image) (b_name b))].
Proof. reflexivity. Qed.

End EETheory.

(* ===================================================================== *)
(** * Properties of the Sentinel-2 index and mask functions *)
(* ===================================================================== *)

Module SentinelTheory.
Import EE JS Sentinel EETheory.
Local Open Scope string_scope.
Local Open Scope list_scope.

(** Run the next [select] of the goal on a band known to be present. *)
Ltac select_next Hreads :=
  match goal with
  | |- context [select ?image ?name] =>
      let b := fresh "b" in
      let E := fresh "E" in
      destruct (select_present image name) as (b & E & _ & _);
      [apply Hreads; cbn; tauto | rewrite E; cbn [bind]]
  end.

(** ** The single-index adders append one band *)

(** C7, as the code has it.  For each of the eleven single-index adders and
    every image that has the bands the adder reads, the result is the input
    image, bands and pixel values untouched and in the same order, followed
    by exactly one new band; the new band carries the index name, or, when
    the image already has a band of that name, that name with a numerical
    suffix. *)
Theorem single_index_adders_append_one_band
    {V : Type} `{Numeric V} (name : string) (reads : list string)
    (adder : Image V -> Computed (Image V)) (image : Image V) :
  In (name, reads, adder) single_index_adders ->
  (forall r, In r reads -> In r (bandNames image)) ->
  exists index_band,
    adder image = Done (image ++ [index_band])
    /\ b_name index_band = fresh_name (bandNames image) name
    /\ (~ In name (bandNames image) -> b_name index_band = name).
Proof.
  intros Hin Hreads.
  assert (Hgoal : exists index_band,
             adder image = Done (image ++ [index_band])
             /\ b_name index_band = fresh_name (bandNames image) name).
  { unfold single_index_adders in Hin. cbn [In] in Hin.
    repeat (destruct Hin as [Hin|Hin];
            [injection Hin as <- <- <-|]); try contradiction;
      unfold addCRE, addDSWI, addDRS, addEVI, addGNDVI, addLAI, addNBR,
             addNDRE1, addNDRE2, addNDVI, addNDWI, normalizedDifference;
      repeat select_next Hreads;
      (eexists; split; [reflexivity|reflexivity]). }
  destruct Hgoal as (index_band & Hrun & Hname).
  exists index_band. split; [exact Hrun|]. split; [exact Hname|].
  intros Hfree. now rewrite Hname, fresh_name_free.
Qed.

(** [addNBR] on the sample Sentinel-2 image. *)
Lemma single_index_adders_append_one_band_witness :
  exists index_band,
    addNBR s2_image = Done (s2_image ++ [index_band])
    /\ b_name index_band = fresh_name (bandNames s2_image) "NBR"
    /\ (~ In "NBR" (bandNames s2_image) -> b_name index_band = "NBR").
Proof.
  apply (single_index_adders_append_one_band "NBR" ["B8"; "B12"] addNBR s2_image).
  - cbn. tauto.
  - intros r Hr. cbn in Hr |- *. intuition auto.
Defined.

(** C7 as stated fails on an image that lacks a band the adder reads:
    [addCRE] on an image without B5 yields no image at all. *)
Lemma addCRE_fails_without_red_edge :
  In ("CRE", ["B5"; "B7"], addCRE) (single_index_adders (V := R))
  /\ (exists msg, addCRE rgb_image = Failed msg)
  /\ ~ exists out, addCRE rgb_image = Done out.
Proof.
  split; [cbn; tauto|]. split; [eexists; reflexivity|].
  intros [out Hout]. discriminate Hout.
Qed.

(** ** NDVI *)

(** C5, as the code has it.  For every image that has bands B8 and B4 and no
    band already called NDVI, [addNDVI] returns the input image followed by
    exactly one new band, named NDVI.  At a pixel where B8 and B4 are both
    valid and non-negative the new band holds (B8 - B4) / (B8 + B4); at every
    other pixel it is masked. *)
Theorem addNDVI_appends_normalized_difference
    {V : Type} `{Numeric V} (image : Image V) :
  In "B8" (bandNames image) -> In "B4" (bandNames image) ->
  ~ In "NDVI" (bandNames image) ->
  exists B8 B4 NDVI,
    select image "B8" = Done B8 /\ select image "B4" = Done B4
    /\ addNDVI image = Done (image ++ [NDVI])
    /\ b_name NDVI = "NDVI"
    /\ forall p,
         b_px NDVI p
         = match b_px B8 p, b_px B4 p with
           | Some nir, Some red =>
               if is_neg nir || is_neg red then None
               else Some (div (sub nir red) (add nir red))
           | _, _ => None
           end.
Proof.
  intros H8 H4 Hfree.
  destruct (select_present image "B8" H8) as (B8 & E8 & _ & _).
  destruct (select_present image "B4" H4) as (B4 & E4 & _ & _).
  unfold addNDVI, normalizedDifference. rewrite E8, E4. cbn [bind].
  eexists B8, B4, _. split; [reflexivity|]. split; [reflexivity|].
  split; [rewrite addBands_one; reflexivity|].
  split; [cbn; now apply fresh_name_free|].
  intros p. reflexivity.
Qed.

(** [addNDVI] on the sample Sentinel-2 image. *)
Lemma addNDVI_appends_normalized_difference_witness :
  exists B8 B4 NDVI,
    select s2_image "B8" = Done B8 /\ select s2_image "B4" = Done B4
    /\ addNDVI s2_image = Done (s2_image ++ [NDVI])
    /\ b_name NDVI = "NDVI"
    /\ forall p,
         b_px NDVI p
         = match b_px B8 p, b_px B4 p with
           | Some nir, Some red =>
               if is_neg nir || is_neg red then None
               else Some (div (sub nir red) (add nir red))
           | _, _ => None
           end.
Proof.
  apply (addNDVI_appends_normalized_difference s2_image).
  - cbn. tauto.
  - cbn. tauto.
  - cbn. intros Hin.
    repeat (destruct Hin as [Hin|Hin]; [discriminate Hin|]). exact Hin.
Defined.

(** C5 as stated fails on an image that has B8 and B4 but already carries a
    band called NDVI and has a negative B8: the band [addNDVI] appends is
    called NDVI_1, and it is masked where the formula would give
    (-1 - 3) / (-1 + 3). *)
Lemma addNDVI_on_indexed_image :
  In "B8" (bandNames indexed_image) /\ In "B4" (bandNames indexed_image)
  /\ exists out nd,
       addNDVI indexed_image = Done out
       /\ out = indexed_image ++ [nd]
       /\ bandNames out = ["B4"; "B8"; "NDVI"; "NDVI_1"]
       /\ b_px nd (0, 0)%Z = None
       /\ ~ (exists NDVI, out = indexed_image ++ [NDVI] /\ b_name NDVI = "NDVI").
Proof.
  split; [cbn; tauto|]. split; [cbn; tauto|].
  eexists _, _. split; [reflexivity|]. split; [reflexivity|].
  split; [reflexivity|]. split.
  - cbn. destruct (Rlt_dec (-1) 0) as [_|Hge]; [reflexivity|].
    exfalso. apply Hge. lra.
  - intros (NDVI & Hout & Hname).
    apply app_inj_tail in Hout as [_ <-]. discriminate Hname.
Qed.

(** ** LAI against EVI *)

(** C6.  For every image that has bands B8, B4 and B2, the band [addLAI]
    appends and the band [addEVI] appends (called LAI and EVI when those names
    are free) satisfy, at every pixel, LAI = 3.618 * EVI - 0.118; LAI is
    masked exactly where EVI is. *)
Theorem addLAI_is_affine_in_addEVI
    {V : Type} `{Numeric V} (image : Image V) :
  In "B8" (bandNames image) -> In "B4" (bandNames image) ->
  In "B2" (bandNames image) ->
  exists EVI LAI,
    addEVI image = Done (image ++ [EVI])
    /\ addLAI image = Done (image ++ [LAI])
    /\ b_name EVI = fresh_name (bandNames image) "EVI"
    /\ b_name LAI = fresh_name (bandNames image) "LAI"
    /\ forall p,
         b_px LAI p
         = option_map (fun evi => sub (mul (lit 3.618) evi) (lit 0.118))
                      (b_px EVI p).
Proof.
  intros H8 H4 H2.
  destruct (select_present image "B8" H8) as (B8 & E8 & _ & _).
  destruct (select_present image "B4" H4) as (B4 & E4 & _ & _).
  destruct (select_present image "B2" H2) as (B2 & E2 & _ & _).
  unfold addEVI, addLAI. rewrite E8, E4, E2. cbn [bind].
  eexists _, _. split; [reflexivity|]. split; [reflexivity|].
  split; [reflexivity|]. split; [reflexivity|].
  intros p. cbn [rename named b_px].
  cbn [eval lookup_var List.find fst snd String.eqb Ascii.eqb Bool.eqb option_map lift2].
  destruct (eval _ p EVI_expr); reflexivity.
Qed.

(** [addEVI] and [addLAI] on the sample Sentinel-2 image. *)
Lemma addLAI_is_affine_in_addEVI_witness :
  exists EVI LAI,
    addEVI s2_image = Done (s2_image ++ [EVI])
    /\ addLAI s2_image = Done (s2_image ++ [LAI])
    /\ b_name EVI = fresh_name (bandNames s2_image) "EVI"
    /\ b_name LAI = fresh_name (bandNames s2_image) "LAI"
    /\ forall p,
         b_px LAI p
         = option_map (fun evi => sub (mul (lit 3.618) evi) (lit 0.118))
                      (b_px EVI p).
Proof.
  apply (addLAI_is_affine_in_addEVI s2_image); cbn; tauto.
Defined.

(** ** Cloud mask *)

Lemma land_bit_is_zero (q n : Z) :
  (0 <= n)%Z ->
  (Z.land q (Z.shiftl 1 n) =? 0)%Z = negb (Z.testbit q n).
Proof.
  intros Hn. rewrite Z.shiftl_1_l.
  destruct (Z.testbit q n) eqn:E; cbn [negb].
  - apply Z.eqb_neq. intros H0.
    assert (Hbit : Z.testbit (Z.land q (2 ^ n)) n = true).
    { rewrite Z.land_spec, E, Z.pow2_bits_true by assumption. reflexivity. }
    rewrite H0, Z.bits_0 in Hbit. discriminate.
  - apply Z.eqb_eq, Z.bits_inj'. intros i Hi.
    rewrite Z.land_spec, Z.bits_0, Z.pow2_bits_eqb by assumption.
    destruct (Z.eqb_spec n i) as [->|_]; [now rewrite E|apply andb_false_r].
Qed.

(** C4.  For every image with a QA60 band, [maskS2clouds] returns an image
    with the same bands in the same order in which a pixel that was valid
    (in the band and in QA60) is kept if and only if bits 10 and 11 of QA60
    are both zero there, and every kept value is the input value divided by
    10000. *)
Theorem maskS2clouds_keeps_clear_pixels_scaled
    {V : Type} `{Numeric V} (image : Image Z) :
  In "QA60" (bandNames image) ->
  exists qa out,
    select image "QA60" = Done qa
    /\ maskS2clouds image = Done out
    /\ bandNames out = bandNames image
    /\ Forall2 (fun b b' =>
                  forall p (v q : Z),
                    b_px b p = Some v -> b_px qa p = Some q ->
                    (is_Some (b_px b' p)
                     <-> Z.testbit q 10 = false /\ Z.testbit q 11 = false)
                    /\ (is_Some (b_px b' p) ->
                        b_px b' p = Some (div (lit (inject_Z v)) (lit 10000))))
               image out
    /\ Forall2 (fun b b' => forall p, b_px b' p = cloud_masked (b_px b p) (b_px qa p))
               image out.
Proof.
  intros Hqa.
  destruct (select_present image "QA60" Hqa) as (qa & Eqa & _ & _).
  assert (Hpx : Forall2
            (fun b b' : Band _ =>
               b_name b' = b_name b
               /\ forall p, b_px b' p = cloud_masked (b_px b p) (b_px qa p))
            image
            (divide (updateMask image
                       (and_ (eq_const (bitwiseAnd qa (Z.shiftl 1 10)) 0)
                             (eq_const (bitwiseAnd qa (Z.shiftl 1 11)) 0)))
                    10000)).
  { clear Hqa Eqa. unfold divide, updateMask. rewrite map_map.
    induction image as [|b bs IH]; constructor; [|exact IH].
    split; [reflexivity|]. intros p. unfold cloud_masked.
    cbn [b_px map_px and_ eq_const bitwiseAnd option_map].
    destruct (b_px qa p) as [q|]; cbn [option_map];
      [|now destruct (b_px b p)].
    rewrite !land_bit_is_zero by lia.
    destruct (Z.testbit q 10), (Z.testbit q 11), (b_px b p); reflexivity. }
  exists qa, (divide (updateMask image
                   (and_ (eq_const (bitwiseAnd qa (Z.shiftl 1 10)) 0)
                         (eq_const (bitwiseAnd qa (Z.shiftl 1 11)) 0)))
                10000).
  split; [exact Eqa|]. split; [unfold maskS2clouds; now rewrite Eqa|].
  split; [|split].
  - unfold bandNames, divide, updateMask. rewrite !map_map. reflexivity.
  - eapply Forall2_impl; [exact Hpx|]. intros b b' [_ Hb] p v q Hv Hq.
    rewrite Hb, Hv, Hq. unfold cloud_masked.
    destruct (Z.testbit q 10), (Z.testbit q 11); cbn [negb andb];
      (split; [split|]);
      try (intros [? ?]; discriminate); try reflexivity.
    + intros _. split; reflexivity.
    + intros _. eexists; reflexivity.
  - eapply Forall2_impl; [exact Hpx|]. intros b b' [_ Hb]. exact Hb.
Qed.

(** [maskS2clouds] on the raw sample image. *)
Lemma maskS2clouds_keeps_clear_pixels_scaled_witness :
  exists qa (out : Image R),
    select raw_image "QA60" = Done qa
    /\ maskS2clouds raw_image = Done out
    /\ bandNames out = bandNames raw_image
    /\ Forall2 (fun b b' =>
                  forall p (v q : Z),
                    b_px b p = Some v -> b_px qa p = Some q ->
                    (is_Some (b_px b' p)
                     <-> Z.testbit q 10 = false /\ Z.testbit q 11 = false)
                    /\ (is_Some (b_px b' p) ->
                        b_px b' p = Some (div (lit (inject_Z v)) (lit 10000))))
               raw_image out
    /\ Forall2 (fun b b' => forall p, b_px b' p = cloud_masked (b_px b p) (b_px qa p))
               raw_image out.
Proof.
  apply (maskS2clouds_keeps_clear_pixels_scaled raw_image). cbn. tauto.
Defined.

Example maskS2clouds_raw_image :
  exists b4 qa60,
    maskS2clouds (V := R) raw_image = Done [b4; qa60]
    /\ b_px b4 (0, 0)%Z = Some (1500 / 10000)%R
    /\ b_px b4 (0, 1)%Z = None
    /\ b_px b4 (1, 0)%Z = None.
Proof.
  eexists _, _. split; [reflexivity|].
  cbv -[Rdiv Rmult Rinv IZR]. repeat split. f_equal. lra.
Qed.

(** ** NDRE3 and RDI: the band check *)

(** The band check is decided on the client, where
    [image.bandNames().contains(b)] is an object and so counts as true:
    [hasBands] is always true and the first branch is always taken. *)
Lemma hasBands_always_true (names bands : list string) :
  every (fun b => as_js (contains names b)) bands = true.
Proof. unfold every. induction bands; [reflexivity|exact IHbands]. Qed.

Lemma addNDRE3_takes_first_branch {V} `{Numeric V} (image : Image V) :
  addNDRE3 image = with_NDRE3 image.
Proof. unfold addNDRE3. now rewrite hasBands_always_true. Qed.

Lemma addRDI_takes_first_branch {V} `{Numeric V} (image : Image V) :
  addRDI image = with_RDI image.
Proof. unfold addRDI. now rewrite hasBands_always_true. Qed.

(** C10 at an image without B8A, B7 and B12: neither function returns the
    image unchanged; both fail in [select]. *)
Theorem addNDRE3_addRDI_fail_on_missing_bands :
  ~ In "B8A" (bandNames rgb_image)
  /\ (exists msg, addNDRE3 rgb_image = Failed msg)
  /\ (exists msg, addRDI rgb_image = Failed msg)
  /\ addNDRE3 rgb_image <> Done rgb_image
  /\ addRDI rgb_image <> Done rgb_image.
Proof.
  split.
  { cbn. intros Hin.
    repeat (destruct Hin as [Hin|Hin]; [discriminate Hin|]). exact Hin. }
  split; [eexists; reflexivity|]. split; [eexists; reflexivity|].
  split; discriminate.
Qed.

(** With a missing band both functions fail, whatever the image. *)
Lemma addNDRE3_fails_without_bands {V} `{Numeric V} (image : Image V) :
  ~ In "B8A" (bandNames image) \/ ~ In "B7" (bandNames image) ->
  exists msg, addNDRE3 image = Failed msg.
Proof.
  intros Hmiss. rewrite addNDRE3_takes_first_branch. unfold with_NDRE3.
  destruct (in_dec string_dec "B8A" (bandNames image)) as [H8|H8].
  - destruct Hmiss as [Hmiss|Hmiss]; [contradiction|].
    destruct (select_present image "B8A" H8) as (b & E & _ & _).
    rewrite E, (select_absent image "B7" Hmiss). cbn. eauto.
  - rewrite (select_absent image "B8A" H8). cbn. eauto.
Qed.

Lemma addRDI_fails_without_bands {V} `{Numeric V} (image : Image V) :
  ~ In "B12" (bandNames image) \/ ~ In "B8A" (bandNames image) ->
  exists msg, addRDI image = Failed msg.
Proof.
  intros Hmiss. rewrite addRDI_takes_first_branch. unfold with_RDI.
  destruct (in_dec string_dec "B12" (bandNames image)) as [H12|H12].
  - destruct Hmiss as [Hmiss|Hmiss]; [contradiction|].
    destruct (select_present image "B12" H12) as (b & E & _ & _).
    rewrite E, (select_absent image "B8A" Hmiss). cbn. eauto.
  - rewrite (select_absent image "B12" H12). cbn. eauto.
Qed.

(** With both bands present the index band is appended. *)
Lemma addNDRE3_adds_band {V} `{Numeric V} (image : Image V) :
  In "B8A" (bandNames image) -> In "B7" (bandNames image) ->
  exists NDRE3,
    addNDRE3 image = Done (image ++ [NDRE3])
    /\ b_name NDRE3 = fresh_name (bandNames image) "NDRE3".
Proof.
  intros H8 H7. rewrite addNDRE3_takes_first_branch. unfold with_NDRE3.
  destruct (select_present image "B8A" H8) as (b8 & E8 & _ & _).
  destruct (select_present image "B7" H7) as (b7 & E7 & _ & _).
  rewrite E8, E7. cbn [bind]. eexists. split; reflexivity.
Qed.

Lemma addRDI_adds_band {V} `{Numeric V} (image : Image V) :
  In "B12" (bandNames image) -> In "B8A" (bandNames image) ->
  exists RDI,
    addRDI image = Done (image ++ [RDI])
    /\ b_name RDI = fresh_name (bandNames image) "RDI".
Proof.
  intros H12 H8. rewrite addRDI_takes_first_branch. unfold with_RDI.
  destruct (select_present image "B12" H12) as (b12 & E12 & _ & _).
  destruct (select_present image "B8A" H8) as (b8 & E8 & _ & _).
  rewrite E12, E8. cbn [bind]. eexists. split; reflexivity.
Qed.

End SentinelTheory.

(* ===================================================================== *)
(** * Properties of the export loops *)
(* ===================================================================== *)

Module ExportingTheory.
Import JS Exporting.
Local Open Scope string_scope.
Local Open Scope list_scope.

(** ** Loops whose body never throws *)

Lemma forEach_run {A} (body : A -> Js unit)
      (sub : A -> list export_task) (rep : A -> list (list string)) :
  (forall x c, body x c
               = ({| tasks := tasks c ++ sub x; console := console c ++ rep x |},
                  Normal tt)) ->
  forall xs c,
    forEach body xs c
    = ({| tasks := tasks c ++ flat_map sub xs;
          console := console c ++ flat_map rep xs |}, Normal tt).
Proof.
  intros Hbody. induction xs as [|x xs IH]; intros c.
  - cbn. unfold ret. destruct c; cbn. now rewrite !app_nil_r.
  - cbn [forEach flat_map]. unfold bind. rewrite Hbody, IH. cbn.
    now rewrite !app_assoc.
Qed.

(** ** Tasks by source image *)

Lemma filter_from_image (g : nat -> list export_task) (i : nat) (xs : list nat) :
  (forall j t, In t (g j) -> source_index (image t) = Some j) ->
  List.NoDup xs ->
  List.filter (from_image i) (flat_map g xs) = if in_dec Nat.eq_dec i xs then g i else [].
Proof.
  intros Hsrc. 
  assert (Hone : forall j, List.filter (from_image i) (g j)
                           = if Nat.eq_dec i j then g j else []).
  { intros j. specialize (Hsrc j). induction (g j) as [|t ts IH]; cbn.
    - now destruct (Nat.eq_dec i j).
    - unfold from_image at 1. rewrite (Hsrc t) by now left.
      rewrite IH by (intros t' Ht'; apply Hsrc; now right).
      destruct (Nat.eq_dec i j) as [->|Hne].
      + now rewrite Nat.eqb_refl.
      + destruct (Nat.eqb_spec j i); [congruence|reflexivity]. }
  induction 1 as [|x xs Hx _ IH]; [reflexivity|].
  cbn [flat_map]. rewrite List.filter_app, Hone, IH.
  destruct (Nat.eq_dec i x) as [Heq|Hne].
  - subst x.
    destruct (in_dec Nat.eq_dec i xs) as [Hin'|_]; [contradiction|].
    destruct (in_dec Nat.eq_dec i (i :: xs)) as [_|Hnin];
      [apply app_nil_r|exfalso; apply Hnin; now left].
  - cbn [app].
    destruct (in_dec Nat.eq_dec i xs) as [Hin'|Hnin'];
      destruct (in_dec Nat.eq_dec i (x :: xs)) as [Hin|Hnin]; try reflexivity.
    + exfalso. apply Hnin. now right.
    + exfalso. destruct Hin as [Hin|Hin]; [congruence|contradiction].
Qed.

Section Loops.
Context (col : collection) (aoi : geometry) (folder_ : string) (scale_ : Q)
        (crs_ : string).

(** ** exportImageCollection *)

Lemma image_body_run (fileNameFn : ee_image -> completion js_value) (i : nat)
      (c : client) :
  try_catch
    (let img := ListGet i in
     fileName <~ lift (fileNameFn img) ;;
     if invalid_file_name fileName then
       throw (Error "Invalid file name generated.")
     else
       let clippedImage := Clip img aoi in
       toDrive (task aoi folder_ scale_ crs_ clippedImage (string_of fileName)))
    (fun err => print ["Error processing image:"; message_of err]) c
  = ({| tasks := tasks c
                 ++ submitted (image_handling aoi folder_ scale_ crs_ fileNameFn i);
        console := console c
                   ++ reported (image_handling aoi folder_ scale_ crs_ fileNameFn i) |},
     Normal tt).
Proof.
  unfold try_catch, bind, lift, image_handling, named_or_error. cbn zeta.
  destruct (fileNameFn (ListGet i)) as [v|e]; cbn.
  - destruct (invalid_file_name v); cbn; unfold print; cbn;
      now rewrite ?app_nil_r.
  - unfold print. cbn. now rewrite app_nil_r.
Qed.

(** ** exportBandsByYear *)

Lemma bands_run (fileNameFn : ee_image -> string -> completion js_value)
      (img : ee_image) (bands : list string) (c : client) :
  forEach (fun band =>
     let bandImage := Clip (SelectBand img band) aoi in
     fileName <~ lift (fileNameFn img band) ;;
     if invalid_file_name fileName then
       throw (Error "Invalid file name generated.")
     else
       toDrive (task aoi folder_ scale_ crs_ bandImage (string_of fileName)))
    bands c
  = ({| tasks := tasks c
                 ++ fst (bands_handling aoi folder_ scale_ crs_ fileNameFn img bands);
        console := console c |},
     match snd (bands_handling aoi folder_ scale_ crs_ fileNameFn img bands) with
     | None => Normal tt
     | Some e => Throw e
     end).
Proof.
  revert c. induction bands as [|band rest IH]; intros c.
  - cbn. unfold ret. destruct c; cbn. now rewrite app_nil_r.
  - cbn [forEach bands_handling]. unfold bind at 1. unfold bind at 1.
    unfold lift, named_or_error.
    destruct (fileNameFn img band) as [v|e]; cbn.
    + destruct (invalid_file_name v); cbn.
      * destruct c; cbn. now rewrite app_nil_r.
      * rewrite IH. cbn.
        destruct (bands_handling aoi folder_ scale_ crs_ fileNameFn img rest)
          as [ts oe]; cbn.
        now rewrite <- app_assoc.
    + destruct c; cbn. now rewrite app_nil_r.
Qed.

Lemma year_body_run (fileNameFn : ee_image -> string -> completion js_value)
      (i : nat) (c : client) :
  try_catch
    (let img := ListGet i in
     bands <~ lift (bandNames_getInfo col img) ;;
     forEach (fun band =>
       let bandImage := Clip (SelectBand img band) aoi in
       fileName <~ lift (fileNameFn img band) ;;
       if invalid_file_name fileName then
         throw (Error "Invalid file name generated.")
       else
         toDrive (task aoi folder_ scale_ crs_ bandImage (string_of fileName)))
       bands)
    (fun err => print ["Error processing image:"; message_of err]) c
  = ({| tasks := tasks c
                 ++ fst (year_handling col aoi folder_ scale_ crs_ fileNameFn i);
        console := console c
                   ++ reported_opt
                        (snd (year_handling col aoi folder_ scale_ crs_ fileNameFn i)) |},
     Normal tt).
Proof.
  unfold try_catch, year_handling. cbn zeta. unfold bind at 1. unfold lift at 1.
  destruct (bandNames_getInfo col (ListGet i)) as [bands|e]; cbn.
  - rewrite bands_run.
    destruct (bands_handling aoi folder_ scale_ crs_ fileNameFn (ListGet i) bands)
      as [ts [e|]]; cbn; unfold print; cbn; now rewrite ?app_nil_r.
  - unfold print. cbn. now rewrite app_nil_r.
Qed.

Lemma bands_handling_source (fileNameFn : ee_image -> string -> completion js_value)
      (i : nat) (bands : list string) (t : export_task) :
  In t (fst (bands_handling aoi folder_ scale_ crs_ fileNameFn (ListGet i) bands)) ->
  source_index (image t) = Some i.
Proof.
  induction bands as [|band rest IH]; cbn; [tauto|].
  destruct (named_or_error (fileNameFn (ListGet i) band)) as [name|e]; cbn; [|tauto].
  destruct (bands_handling aoi folder_ scale_ crs_ fileNameFn (ListGet i) rest)
    as [ts oe]; cbn in *.
  intros [<-|Hin]; [reflexivity|now apply IH].
Qed.

Lemma bands_handling_all_named
      (fileNameFn : ee_image -> string -> completion js_value)
      (img : ee_image) (bands : list string) (names : list string) :
  Forall2 (fun band name => named_or_error (fileNameFn img band) = inl name)
          bands names ->
  bands_handling aoi folder_ scale_ crs_ fileNameFn img bands
  = (map (fun bn => task aoi folder_ scale_ crs_
                      (Clip (SelectBand img (fst bn)) aoi) (snd bn))
         (combine bands names), None).
Proof.
  induction 1 as [|band name bands names Hn _ IH]; [reflexivity|].
  cbn. now rewrite Hn, IH.
Qed.

End Loops.

Lemma invalid_file_name_spec (v : js_value) :
  invalid_file_name v = false <-> exists s, v = JsString s /\ s <> "".
Proof.
  unfold invalid_file_name. split.
  - intros Hv. apply orb_false_iff in Hv as [Ht Hs].
    destruct v; try discriminate Hs. exists s. split; [reflexivity|].
    intros ->. discriminate Ht.
  - intros (s & -> & Hs). cbn. rewrite orb_false_r.
    destruct (String.eqb_spec s ""); [contradiction|reflexivity].
Qed.

(** C3, as the code has it.  Both functions run to the end of the collection
    whatever happens to single images: an image whose handling throws (its
    file name is not a non-empty string, [fileNameFn] or [getInfo] throws) is
    reported on the console with "Error processing image:" and the loop goes
    on with the next one.  [exportImageCollection] submits, for every image
    whose handling does not throw, exactly one task, exporting that image
    clipped to the AOI, and none for the others.  [exportBandsByYear] submits
    one task per band: for an image whose handling does not throw, each of
    its bands, selected and clipped to the AOI, exactly once and in band
    order. *)
Theorem export_loops_continue_past_errors
    (col : collection) (aoi : geometry) (folder_ : string) (scale_ : Q)
    (crs_ : string) (size : nat) (c : client) :
  size_getInfo col = Normal size ->
  (forall fileNameFn : ee_image -> completion js_value,
     let handling := image_handling aoi folder_ scale_ crs_ fileNameFn in
     let new_tasks := flat_map (fun i => submitted (handling i)) (seq 0 size) in
     exportImageCollection col aoi folder_ scale_ crs_ fileNameFn c
     = ({| tasks := tasks c ++ new_tasks;
           console := console c
                      ++ flat_map (fun i => reported (handling i)) (seq 0 size) |},
        Normal tt)
     /\ forall i, (i < size)%nat ->
          List.filter (from_image i) new_tasks = submitted (handling i)
          /\ (forall name,
                named_or_error (fileNameFn (ListGet i)) = inl name ->
                submitted (handling i)
                = [task aoi folder_ scale_ crs_ (Clip (ListGet i) aoi) name]
                /\ reported (handling i) = [])
          /\ (forall v,
                fileNameFn (ListGet i) = Normal v -> invalid_file_name v = true ->
                submitted (handling i) = []
                /\ reported (handling i)
                   = [["Error processing image:"; "Invalid file name generated."]]))
  /\ (forall fileNameFn : ee_image -> string -> completion js_value,
     let handling := year_handling col aoi folder_ scale_ crs_ fileNameFn in
     let new_tasks := flat_map (fun i => fst (handling i)) (seq 0 size) in
     exportBandsByYear col aoi folder_ scale_ crs_ fileNameFn c
     = ({| tasks := tasks c ++ new_tasks;
           console := console c
                      ++ flat_map (fun i => reported_opt (snd (handling i)))
                                  (seq 0 size) |},
        Normal tt)
     /\ forall i, (i < size)%nat ->
          List.filter (from_image i) new_tasks = fst (handling i)
          /\ forall bands names,
               bandNames_getInfo col (ListGet i) = Normal bands ->
               Forall2 (fun band name =>
                          named_or_error (fileNameFn (ListGet i) band) = inl name)
                       bands names ->
               handling i
               = (map (fun bn => task aoi folder_ scale_ crs_
                                   (Clip (SelectBand (ListGet i) (fst bn)) aoi)
                                   (snd bn))
                      (combine bands names), None)).
Proof.
  intros Hsize. split.
  - intros fileNameFn handling new_tasks. split.
    + unfold exportImageCollection, bind at 1. unfold lift at 1. rewrite Hsize.
      apply (forEach_run _ (fun i => submitted (handling i))
                           (fun i => reported (handling i))).
      intros i c'. apply image_body_run.
    + intros i Hi. split; [|split].
      * subst new_tasks. rewrite filter_from_image.
        -- destruct (in_dec Nat.eq_dec i (seq 0 size)) as [_|Hnin]; [reflexivity|].
           exfalso. apply Hnin, in_seq. lia.
        -- intros j t. subst handling. unfold image_handling.
           destruct (named_or_error (fileNameFn (ListGet j))); cbn; [|tauto].
           intros [<-|[]]. reflexivity.
        -- apply seq_NoDup.
      * intros name Hname. subst handling. unfold image_handling.
        rewrite Hname. split; reflexivity.
      * intros v Hv Hinv. subst handling. unfold image_handling, named_or_error.
        rewrite Hv, Hinv. split; reflexivity.
  - intros fileNameFn handling new_tasks. split.
    + unfold exportBandsByYear, bind at 1. unfold lift at 1. rewrite Hsize.
      apply (forEach_run _ (fun i => fst (handling i))
                           (fun i => reported_opt (snd (handling i)))).
      intros i c'. apply year_body_run.
    + intros i Hi. split.
      * subst new_tasks. rewrite filter_from_image.
        -- destruct (in_dec Nat.eq_dec i (seq 0 size)) as [_|Hnin]; [reflexivity|].
           exfalso. apply Hnin, in_seq. lia.
        -- intros j t. subst handling. unfold year_handling.
           destruct (bandNames_getInfo col (ListGet j)) as [bands|e]; cbn; [|tauto].
           apply bands_handling_source.
        -- apply seq_NoDup.
      * intros bands names Hbands Hnames. subst handling. unfold year_handling.
        rewrite Hbands. now apply bands_handling_all_named.
Qed.

(** Three images, the second of which gets [undefined] for a file name. *)
Lemma export_loops_continue_past_errors_witness :
  exportImageCollection landsat alberta "Landsat_Multiband_Export" 30 "EPSG:4326"
                        name_by_index idle
  = ({| tasks :=
          [ task alberta "Landsat_Multiband_Export" 30 "EPSG:4326"
                 (Clip (ListGet 0) alberta) "ls_multiband_2000";
            task alberta "Landsat_Multiband_Export" 30 "EPSG:4326"
                 (Clip (ListGet 2) alberta) "ls_multiband_2002" ];
        console := [["Error processing image:"; "Invalid file name generated."]] |},
     Normal tt).
Proof.
  destruct (export_loops_continue_past_errors
              landsat alberta "Landsat_Multiband_Export" 30 "EPSG:4326" 3 idle
              eq_refl) as [Himages _].
  destruct (Himages name_by_index) as [Hrun _].
  exact Hrun.
Defined.

(** C3 as stated fails for [exportBandsByYear]: with three images of two
    bands each and a file name for every band, no handling throws, yet the
    first image is submitted twice, once per band, and what is clipped and
    exported is never the image itself but one selected band. *)
Lemma exportBandsByYear_submits_once_per_band :
  let run := exportBandsByYear landsat alberta "Landsat_Bands_Export" 30
                               "EPSG:4326" name_by_band idle in
  snd run = Normal tt
  /\ console (fst run) = []
  /\ length (tasks (fst run)) = 6%nat
  /\ map image (List.filter (from_image 0) (tasks (fst run)))
     = [ Clip (SelectBand (ListGet 0) "B4") alberta;
         Clip (SelectBand (ListGet 0) "B5") alberta ]
  /\ length (List.filter (from_image 0) (tasks (fst run))) <> 1%nat
  /\ ~ In (Clip (ListGet 0) alberta) (map image (tasks (fst run))).
Proof.
  cbv zeta. vm_compute. repeat split; try discriminate.
  intros Hin. repeat (destruct Hin as [Hin|Hin]; [discriminate Hin|]). exact Hin.
Qed.

End ExportingTheory.

(* ===================================================================== *)
(** * Properties of the terrain-metrics script *)
(* ===================================================================== *)

Module TerrainTheory.
Import EE Terrain EETheory.
Local Open Scope string_scope.
Local Open Scope list_scope.

(** C8.  With a DEM whose only band is "elevation", the image handed to
    [Export.image.toDrive] has exactly the bands elevation, slope, northness
    and aspect, in that order; at every pixel northness is the cosine of the
    aspect times pi over 180 (masked where the aspect is); the eastness band
    is computed, under that name, but is not among the exported bands. *)
Theorem exported_terrain_bands
    {V : Type} `{Numeric V} `{Trig V} (dem : Image V)
    (Terrain_slope Terrain_aspect : Image V -> Raster V) :
  bandNames dem = ["elevation"] ->
  let exported := image (terrain_metrics_export dem Terrain_slope Terrain_aspect) in
  bandNames exported = ["elevation"; "slope"; "northness"; "aspect"]
  /\ (exists elevation_band slope_band northness_band aspect_band,
        exported = [elevation_band; slope_band; northness_band; aspect_band]
        /\ dem = [elevation_band]
        /\ forall p,
             b_px northness_band p
             = option_map (fun a => cos (div (mul a pi) (lit 180)))
                          (b_px aspect_band p))
  /\ b_name (eastness dem Terrain_aspect) = "eastness"
  /\ ~ In "eastness" (bandNames exported).
Proof.
  intros Hdem exported. subst exported.
  destruct dem as [|e [|e' dem']]; try discriminate Hdem.
  injection Hdem as He.
  unfold terrain_metrics_export, terrain. cbn [image].
  rewrite !addBands_one.
  cbn [bandNames map app rename b_name slope aspect northness]. rewrite He.
  rewrite !fresh_name_free.
  2-4: cbn; intros Hin;
       repeat (destruct Hin as [Hin|Hin]; [discriminate Hin|]); exact Hin.
  split; [reflexivity|]. split; [|split].
  - eexists _, _, _, _. split; [reflexivity|]. split; [reflexivity|].
    intros p. cbn. now destruct (Terrain_aspect [e] p).
  - reflexivity.
  - cbn. intros Hin.
    repeat (destruct Hin as [Hin|Hin]; [discriminate Hin|]). exact Hin.
Qed.

(** With real-valued pixels: northness = cos (aspect * PI / 180). *)
Corollary northness_in_radians (dem : Image R)
    (Terrain_slope Terrain_aspect : Image R -> Raster R) (p : pixel) (a : R) :
  Terrain_aspect dem p = Some a ->
  b_px (northness dem Terrain_aspect) p = Some (Rtrigo_def.cos (a * PI / 180))%R.
Proof.
  intros Ha. cbn. rewrite Ha. cbn. do 2 f_equal.
  unfold Q2R. cbn. lra.
Qed.

(** On the sample DEM. *)
Lemma exported_terrain_bands_witness :
  bandNames (image (terrain_metrics_export flat_dem no_slope facing_east))
  = ["elevation"; "slope"; "northness"; "aspect"]
  /\ ~ In "eastness"
       (bandNames (image (terrain_metrics_export flat_dem no_slope facing_east))).
Proof.
  destruct (exported_terrain_bands flat_dem no_slope facing_east eq_refl)
    as (Hnames & _ & _ & Heast).
  split; [exact Hnames|exact Heast].
Defined.

(** Facing due east, northness is cos (pi / 2) = 0. *)
Example northness_facing_east (p : pixel) :
  b_px (northness flat_dem facing_east) p = Some 0%R.
Proof.
  rewrite (northness_in_radians flat_dem no_slope facing_east p 90 eq_refl).
  f_equal. replace (90 * PI / 180)%R with (PI / 2)%R by lra. apply cos_PI2.
Qed.


End TerrainTheory.

(* ===================================================================== *)
(** * Further properties of the mosaicking functions *)
(* ===================================================================== *)

Module MosaicMore.
Import Mosaic MosaicTheory.
Local Open Scope string_scope.
Local Open Scope list_scope.

(** ** A missing tile is never skipped *)

Lemma batch_step_files raster_files f b n acc i w :
  files (fst (batch_step raster_files f b n acc i w)) = files w.
Proof.
  unfold batch_step, bind, sprc.
  destruct (open_all (files w) _) as [rs|]; [|reflexivity].
  unfold mosaic_collection. destruct rs as [|r rs]; [reflexivity|].
  destruct acc; reflexivity.
Qed.

Lemma open_all_exist fs (paths : list (option string)) rs :
  open_all fs paths = Some rs ->
  Forall (fun p => exists q, p = Some q /\ is_Some (fs !! q)) paths.
Proof.
  revert rs. induction paths as [|[q|] ps IH]; intros rs Hopen.
  - constructor.
  - cbn in Hopen. destruct (fs !! q) as [r|] eqn:Hq; [|discriminate].
    destruct (open_all fs ps) as [rs'|]; [|discriminate].
    constructor; [eauto|]. eapply IH. reflexivity.
  - discriminate.
Qed.

Lemma for_each_ok_opened raster_files f b n xs acc w w' r :
  for_each (batch_step raster_files f b n) xs acc w = (w', Ok r) ->
  Forall (fun i => is_Some (open_all (files w) (batch_files raster_files b n i))) xs.
Proof.
  revert acc w. induction xs as [|x xs IH]; intros acc w Hrun; [constructor|].
  cbn [for_each] in Hrun. unfold bind in Hrun.
  pose proof (batch_step_files raster_files f b n acc x w) as Hfiles.
  destruct (batch_step raster_files f b n acc x w) as [w1 [s|msg]] eqn:Hstep;
    [|discriminate].
  cbn in Hfiles. constructor.
  - unfold batch_step, bind, sprc in Hstep.
    destruct (open_all (files w) _) as [rs|]; [eauto|discriminate].
  - rewrite <- Hfiles. eapply IH. exact Hrun.
Qed.

(** X2.  With a batch size of at least one, [mosaic_rasters_in_batches] and
    [mosaic_rasters_in_list] return a mosaic if and only if every listed
    file exists: a missing tile makes them stop; it is never left out of the
    mosaic silently. *)
Theorem mosaic_returns_iff_all_files_exist
    (raster_files : list string) (export_filename : string) (f : agg)
    (batch_size : nat) (w : world) :
  raster_files <> [] -> (1 <= batch_size)%nat ->
  ((exists w' m, mosaic_rasters_in_list raster_files export_filename f w
                 = (w', Ok m))
   <-> Forall (fun p => is_Some (files w !! p)) raster_files)
  /\ ((exists w' m, mosaic_rasters_in_batches raster_files export_filename f
                      batch_size w = (w', Ok m))
      <-> Forall (fun p => is_Some (files w !! p)) raster_files).
Proof.
  intros Hne Hb. split; split.
  - intros (w' & m & Hrun). unfold mosaic_rasters_in_list in Hrun.
    destruct (length raster_files =? 0)%nat; [discriminate|].
    unfold bind, sprc in Hrun.
    destruct (open_all (files w) (map Some raster_files)) as [rs|] eqn:Hopen;
      [|discriminate].
    apply open_all_exist in Hopen. rewrite Forall_map in Hopen.
    eapply Forall_impl; [exact Hopen|]. cbn. intros p (q & [= <-] & Hq). exact Hq.
  - intros Hex. destruct (existing_rasters _ _ Hex) as [rasters Hread].
    destruct (list_run raster_files rasters f (files w) Hread export_filename w
                Hne eq_refl) as (m & _ & Hrun).
    eauto.
  - intros (w' & m & Hrun). unfold mosaic_rasters_in_batches in Hrun.
    assert (Hn : (1 <= length raster_files)%nat).
    { destruct raster_files; [congruence|cbn; lia]. }
    destruct (Nat.eqb_spec (length raster_files) 0); [lia|].
    rewrite seq_by_starts in Hrun by assumption.
    unfold bind in Hrun.
    destruct (for_each _ _ None w) as [w1 [r|msg]] eqn:Hloop; [|discriminate].
    apply for_each_ok_opened in Hloop.
    set (q := ((length raster_files - 1) / batch_size)%nat) in *.
    assert (Hks : Forall (fun k => k * batch_size < length raster_files)%nat
                         (seq 0 (S q))).
    { apply Forall_forall. intros k Hk.
      now apply (starts_in_range raster_files batch_size Hb). }
    assert (Hall : Forall (fun p : option string =>
                             exists q0, p = Some q0 /\ is_Some (files w !! q0))
                          (concat (map (batch_files raster_files batch_size
                                          (length raster_files))
                                       (map (fun k => 1 + k * batch_size)%nat
                                            (seq 0 (S q)))))).
    { apply Forall_concat, Forall_map.
      eapply Forall_impl; [exact Hloop|]. cbn. intros i [rs Hrs].
      eapply open_all_exist. exact Hrs. }
    rewrite batches_as_chunks in Hall by assumption.
    rewrite <- (map_map (chunk batch_size raster_files) (map Some)) in Hall.
    rewrite <- concat_map, concat_chunks in Hall.
    rewrite take_ge in Hall.
    + rewrite Forall_map in Hall.
      eapply Forall_impl; [exact Hall|]. cbn. intros p (q0 & [= <-] & Hq). exact Hq.
    + assert (length raster_files - 1 < batch_size * S q)%nat
        by (apply Nat.mul_succ_div_gt; lia).
      lia.
  - intros Hex. destruct (existing_rasters _ _ Hex) as [rasters Hread].
    destruct (batches_run raster_files rasters f batch_size (files w) Hb Hread
                export_filename w Hne eq_refl) as (m & _ & Hrun).
    eauto.
Qed.

(** With one tile on disk missing from three listed. *)
Lemma mosaic_returns_iff_all_files_exist_witness :
  ((exists w' m, mosaic_rasters_in_list ["tiles/a.tif"; "tiles/z.tif"]
                   "out/mosaic.tif" agg_mean world0 = (w', Ok m))
   <-> Forall (fun p => is_Some (files world0 !! p)) ["tiles/a.tif"; "tiles/z.tif"])
  /\ ((exists w' m, mosaic_rasters_in_batches ["tiles/a.tif"; "tiles/z.tif"]
                      "out/mosaic.tif" agg_mean 1 world0 = (w', Ok m))
      <-> Forall (fun p => is_Some (files world0 !! p)) ["tiles/a.tif"; "tiles/z.tif"]).
Proof.
  apply (mosaic_returns_iff_all_files_exist
           ["tiles/a.tif"; "tiles/z.tif"] "out/mosaic.tif" agg_mean 1 world0).
  - discriminate.
  - lia.
Defined.

(** ** One batch *)

(** X3.  When the batch size is at least the number of files, the loop runs
    once and [mosaic_rasters_in_batches] returns exactly the raster
    [mosaic_rasters_in_list] returns, for every aggregation function, and
    leaves the same files on disk. *)
Theorem single_batch_is_one_pass
    (raster_files : list string) (export_filename : string) (f : agg)
    (batch_size : nat) (w : world) :
  raster_files <> [] -> (length raster_files <= batch_size)%nat ->
  Forall (fun p => is_Some (files w !! p)) raster_files ->
  exists w1 w2 m,
    mosaic_rasters_in_list raster_files export_filename f w = (w1, Ok m)
    /\ mosaic_rasters_in_batches raster_files export_filename f batch_size w
       = (w2, Ok m)
    /\ files w1 = files w2.
Proof.
  intros Hne Hlen Hex.
  assert (Hn : (1 <= length raster_files)%nat).
  { destruct raster_files; [congruence|cbn; lia]. }
  assert (Hb : (1 <= batch_size)%nat) by lia.
  destruct (existing_rasters _ _ Hex) as [rasters Hread].
  destruct (list_run raster_files rasters f (files w) Hread export_filename w
              Hne eq_refl) as (m1 & Hm1 & Hrun1).
  destruct (batches_run raster_files rasters f batch_size (files w) Hb Hread
              export_filename w Hne eq_refl) as (m2 & Hm2 & Hrun2).
  rewrite Nat.div_small in Hm2 by lia.
  cbn [seq map fold_left] in Hm2. unfold chunk in Hm2.
  cbn [Nat.mul drop] in Hm2.
  rewrite take_ge in Hm2
    by (erewrite <- Forall2_length by exact Hread; exact Hlen).
  destruct rasters as [|r rs]; [discriminate|].
  cbn in Hm1, Hm2. injection Hm1 as <-. injection Hm2 as <-.
  eexists _, _, _. split; [exact Hrun1|]. split; [exact Hrun2|]. reflexivity.
Qed.

Lemma single_batch_is_one_pass_witness :
  exists w1 w2 m,
    mosaic_rasters_in_list tiles0 "out/mosaic.tif" agg_mean world0 = (w1, Ok m)
    /\ mosaic_rasters_in_batches tiles0 "out/mosaic.tif" agg_mean 10 world0
       = (w2, Ok m)
    /\ files w1 = files w2.
Proof.
  apply (single_batch_is_one_pass tiles0 "out/mosaic.tif" agg_mean 10 world0).
  - discriminate.
  - cbn. lia.
  - repeat constructor; eexists; vm_compute; reflexivity.
Defined.

(** ** A batch size of zero *)

(** X4.  [batch_size = 0] is not rejected up front.  With two or more files
    [seq(1, num_files, by = 0)] fails, so the function stops before reading
    or writing anything.  With exactly one (existing) file the sequence is
    just 1, the slice [raster_files[1:0]] is that file, and the function
    returns the same mosaic as [mosaic_rasters_in_list]. *)
Theorem batch_size_zero
    (raster_files : list string) (export_filename : string) (f : agg)
    (w : world) :
  ((2 <= length raster_files)%nat ->
   exists msg,
     mosaic_rasters_in_batches raster_files export_filename f 0 w = (w, Stop msg))
  /\ (forall p, raster_files = [p] -> is_Some (files w !! p) ->
      exists w1 w2 m,
        mosaic_rasters_in_list raster_files export_filename f w = (w1, Ok m)
        /\ mosaic_rasters_in_batches raster_files export_filename f 0 w
           = (w2, Ok m)
        /\ files w1 = files w2).
Proof.
  split.
  - intros Hlen. unfold mosaic_rasters_in_batches.
    destruct (Nat.eqb_spec (length raster_files) 0); [lia|].
    unfold seq_by. destruct (Nat.eqb_spec 1 (length raster_files)); [lia|].
    cbn. eauto.
  - intros p -> [r Hr].
    unfold mosaic_rasters_in_batches, mosaic_rasters_in_list.
    cbn [length Nat.eqb seq_by for_each].
    unfold bind, batch_step, bind, batch_files, sprc. cbn. rewrite Hr. cbn.
    eexists _, _, _. split; [reflexivity|]. split; reflexivity.
Qed.

(** ** The trailing slash of the directory *)

Lemma substring_whole (t : string) :
  String.substring 0 (String.length t) t = t.
Proof. induction t as [|b t IH]; cbn; [reflexivity|now rewrite IH]. Qed.

Lemma substring_at_end (s t : string) :
  String.substring (String.length s) (String.length t) (s ++ t) = t.
Proof.
  induction s as [|a s IH]; cbn; [apply substring_whole|exact IH].
Qed.

Lemma length_append (s t : string) :
  String.length (s ++ t) = (String.length s + String.length t)%nat.
Proof.
  induction s as [|a s IH]; [reflexivity|].
  change (S (String.length (s ++ t)) = S (String.length s + String.length t)).
  now rewrite IH.
Qed.

Lemma endsWith_append (s t : string) : endsWith (s ++ t) t = true.
Proof.
  unfold endsWith. rewrite length_append.
  replace (String.length s + String.length t - String.length t)%nat
    with (String.length s) by lia.
  rewrite substring_at_end, String.eqb_refl.
  destruct (Nat.leb_spec (String.length t) (String.length s + String.length t));
    [reflexivity|lia].
Qed.

Lemma with_slash_ends (path_name : string) :
  endsWith (with_slash path_name) "/" = true.
Proof.
  unfold with_slash. destruct (endsWith path_name "/") eqn:E; cbn.
  - exact E.
  - apply endsWith_append.
Qed.

(** X5.  The directory may be given with or without its trailing slash:
    [mosaic_rasters_in_directory] adds the slash when it is missing and
    leaves the path alone when it is there, so both spellings read the same
    files and give the same result. *)
Theorem directory_trailing_slash_is_optional
    (path_name export_filename : string) (f : agg) (w : world) :
  with_slash (with_slash path_name) = with_slash path_name
  /\ (endsWith path_name "/" = false ->
      with_slash path_name = (path_name ++ "/")%string)
  /\ mosaic_rasters_in_directory (with_slash path_name) export_filename f w
     = mosaic_rasters_in_directory path_name export_filename f w.
Proof.
  assert (Hidem : with_slash (with_slash path_name) = with_slash path_name).
  { unfold with_slash at 1. now rewrite with_slash_ends. }
  split; [exact Hidem|]. split.
  - intros Hno. unfold with_slash. now rewrite Hno.
  - unfold mosaic_rasters_in_directory. cbn zeta. now rewrite Hidem.
Qed.

Lemma batch_size_zero_witness :
  (exists msg,
     mosaic_rasters_in_batches tiles0 "out/mosaic.tif" agg_mean 0 world0
     = (world0, Stop msg))
  /\ (exists w1 w2 m,
        mosaic_rasters_in_list ["tiles/c.tif"] "out/mosaic.tif" agg_mean world0
        = (w1, Ok m)
        /\ mosaic_rasters_in_batches ["tiles/c.tif"] "out/mosaic.tif" agg_mean 0
                                     world0 = (w2, Ok m)
        /\ files w1 = files w2).
Proof.
  split.
  - apply (proj1 (batch_size_zero tiles0 "out/mosaic.tif" agg_mean world0)).
    cbn. lia.
  - apply (proj2 (batch_size_zero ["tiles/c.tif"] "out/mosaic.tif" agg_mean
                                  world0) "tiles/c.tif"); [reflexivity|].
    eexists. vm_compute. reflexivity.
Defined.

End MosaicMore.

(* ===================================================================== *)
(** * Further properties of the Sentinel-2 index functions *)
(* ===================================================================== *)

Module SentinelMore.
Import EE JS Sentinel EETheory.
Local Open Scope string_scope.
Local Open Scope list_scope.

(** ** Bands appended to an image do not disturb the bands before them *)

Lemma select_app_l {V} (image extra : Image V) (name : string) :
  In name (bandNames image) ->
  select (image ++ extra) name = select image name.
Proof.
  intros Hin. unfold select.
  induction image as [|b bs IH]; [destruct Hin|].
  cbn. destruct (String.eqb_spec (b_name b) name) as [_|Hne]; [reflexivity|].
  apply IH. destruct Hin as [Hin|Hin]; [contradiction|exact Hin].
Qed.

Ltac select_extended Hreads :=
  match goal with
  | |- context [select (?image ++ ?extra) ?name] =>
      rewrite (select_app_l image extra name) by (apply Hreads; cbn; tauto)
  end.

Ltac select_known Hreads :=
  match goal with
  | |- context [select ?image ?name] =>
      let b := fresh "b" in
      let E := fresh "E" in
      destruct (select_present image name) as (b & E & _ & _);
      [apply Hreads; cbn; tauto | rewrite !E; cbn [bind]]
  end.

(** An adder computes the same index raster on an image and on that image
    with further bands appended. *)
Lemma adder_on_extended_image
    {V : Type} `{Numeric V} (name : string) (reads : list string)
    (adder : Image V -> Computed (Image V)) (image extra : Image V) :
  In (name, reads, adder) single_index_adders ->
  (forall r, In r reads -> In r (bandNames image)) ->
  exists r,
    adder image
    = Done (image ++ [named r (fresh_name (bandNames image) name)])
    /\ adder (image ++ extra)
       = Done ((image ++ extra)
               ++ [named r (fresh_name (bandNames (image ++ extra)) name)]).
Proof.
  intros Hin Hreads.
  unfold single_index_adders in Hin. cbn [In] in Hin.
  repeat (destruct Hin as [Hin|Hin];
          [injection Hin as <- <- <-|]); try contradiction;
    unfold addCRE, addDSWI, addDRS, addEVI, addGNDVI, addLAI, addNBR,
           addNDRE1, addNDRE2, addNDVI, addNDWI, normalizedDifference;
    repeat select_extended Hreads;
    repeat select_known Hreads;
    (eexists; split; reflexivity).
Qed.

Lemma done_named_inj {V} (image : Image V) (r r' : Raster V) (n n' : string) :
  Done (image ++ [named r n]) = Done (image ++ [named r' n']) -> r = r'.
Proof.
  intros Heq. injection Heq as Heq. apply app_inj_tail in Heq as [_ Heq].
  now injection Heq.
Qed.

(** X6.  Any two of the eleven single-index adders can be applied one after
    the other, in either order, to an image that has the bands they read:
    the second adder is not disturbed by the band the first one appended,
    and both orders append the very same two index rasters (only their
    order in the band list differs). *)
Theorem index_adders_compose
    {V : Type} `{Numeric V}
    (name1 name2 : string) (reads1 reads2 : list string)
    (adder1 adder2 : Image V -> Computed (Image V)) (image : Image V) :
  In (name1, reads1, adder1) single_index_adders ->
  In (name2, reads2, adder2) single_index_adders ->
  (forall r, In r reads1 -> In r (bandNames image)) ->
  (forall r, In r reads2 -> In r (bandNames image)) ->
  exists (x1 x2 : Raster V) (n1 n2 n12 n21 : string),
    adder1 image = Done (image ++ [named x1 n1])
    /\ adder2 image = Done (image ++ [named x2 n2])
    /\ (image1 <~ adder1 image ;; adder2 image1)
       = Done (image ++ [named x1 n1; named x2 n12])
    /\ (image2 <~ adder2 image ;; adder1 image2)
       = Done (image ++ [named x2 n2; named x1 n21])
    /\ n1 = fresh_name (bandNames image) name1
    /\ n2 = fresh_name (bandNames image) name2
    /\ n12 = fresh_name (bandNames image ++ [n1]) name2
    /\ n21 = fresh_name (bandNames image ++ [n2]) name1.
Proof.
  intros Hin1 Hin2 Hr1 Hr2.
  destruct (adder_on_extended_image name1 reads1 adder1 image [] Hin1 Hr1)
    as (x1 & Hx1 & _).
  destruct (adder_on_extended_image name2 reads2 adder2 image [] Hin2 Hr2)
    as (x2 & Hx2 & _).
  destruct (adder_on_extended_image name2 reads2 adder2 image
              [named x1 (fresh_name (bandNames image) name1)] Hin2 Hr2)
    as (x2' & Hx2' & H12).
  destruct (adder_on_extended_image name1 reads1 adder1 image
              [named x2 (fresh_name (bandNames image) name2)] Hin1 Hr1)
    as (x1' & Hx1' & H21).
  rewrite Hx2 in Hx2'. apply done_named_inj in Hx2'. subst x2'.
  rewrite Hx1 in Hx1'. apply done_named_inj in Hx1'. subst x1'.
  exists x1, x2. eexists _, _, _, _.
  split; [exact Hx1|]. split; [exact Hx2|].
  rewrite Hx1, Hx2. cbn [bind]. rewrite H12, H21.
  unfold bandNames. rewrite !map_app, <- !app_assoc. cbn [map app named b_name].
  repeat split; reflexivity.
Qed.

(** NDVI then EVI on the sample Sentinel-2 image. *)
Lemma index_adders_compose_witness :
  exists (x1 x2 : Raster R) (n1 n2 n12 n21 : string),
    addNDVI s2_image = Done (s2_image ++ [named x1 n1])
    /\ addEVI s2_image = Done (s2_image ++ [named x2 n2])
    /\ (image1 <~ addNDVI s2_image ;; addEVI image1)
       = Done (s2_image ++ [named x1 n1; named x2 n12])
    /\ (image2 <~ addEVI s2_image ;; addNDVI image2)
       = Done (s2_image ++ [named x2 n2; named x1 n21])
    /\ n1 = fresh_name (bandNames s2_image) "NDVI"
    /\ n2 = fresh_name (bandNames s2_image) "EVI"
    /\ n12 = fresh_name (bandNames s2_image ++ [n1]) "EVI"
    /\ n21 = fresh_name (bandNames s2_image ++ [n2]) "NDVI".
Proof.
  apply (index_adders_compose "NDVI" "EVI" ["B8"; "B4"] ["B8"; "B4"; "B2"]
           addNDVI addEVI s2_image).
  - cbn. tauto.
  - cbn. tauto.
  - intros r Hr. cbn in Hr |- *. intuition auto.
  - intros r Hr. cbn in Hr |- *. intuition auto.
Defined.

(** ** An adder returns an image exactly when its input bands are there *)

Ltac select_or_fail image name :=
  destruct (in_dec string_dec name (bandNames image)) as [?Hin|?Hnin];
  [ let b := fresh "b" in
    let E := fresh "E" in
    destruct (select_present image name) as (b & E & _ & _);
    [assumption|rewrite ?E; cbn [bind]]
  | rewrite ?(select_absent image name) by assumption; cbn [bind] ].

(** X7.  Each single-index adder returns an image if and only if the input
    image has every band the adder reads; with a band missing it fails
    (there is no guard and no fallback). *)
Theorem index_adder_returns_iff_bands_present
    {V : Type} `{Numeric V} (name : string) (reads : list string)
    (adder : Image V -> Computed (Image V)) (image : Image V) :
  In (name, reads, adder) single_index_adders ->
  ((exists out, adder image = Done out)
   <-> forall r, In r reads -> In r (bandNames image)).
Proof.
  intros Hin. split.
  - intros [out Hout]. revert Hout.
    unfold single_index_adders in Hin. cbn [In] in Hin.
    repeat (destruct Hin as [Hin|Hin];
            [injection Hin as <- <- <-|]); try contradiction;
      unfold addCRE, addDSWI, addDRS, addEVI, addGNDVI, addLAI, addNBR,
             addNDRE1, addNDRE2, addNDVI, addNDWI, normalizedDifference;
      repeat match goal with
             | |- context [select image ?n] => select_or_fail image n
             end;
      try discriminate;
      intros _ r Hr; cbn [In] in Hr;
      repeat (destruct Hr as [<-|Hr]; [assumption|]); destruct Hr.
  - intros Hreads.
    destruct (adder_on_extended_image name reads adder image [] Hin Hreads)
      as (r & Hr & _).
    eauto.
Qed.

Lemma index_adder_returns_iff_bands_present_witness :
  (exists out, addDSWI rgb_image = Done out)
  <-> forall r, In r ["B8"; "B3"; "B4"; "B11"] -> In r (bandNames rgb_image).
Proof.
  apply (index_adder_returns_iff_bands_present
           "DSWI" ["B8"; "B3"; "B4"; "B11"] addDSWI rgb_image).
  cbn. tauto.
Defined.

(** ** NDRE3 and RDI on images that have their bands *)

(** X11.  On an image that has band B8A, [addNDRE3] (given B7 too) and
    [addRDI] (given B12 too) append one band each, named NDRE3 and RDI when
    those names are free, holding (B8A - B7) / (B8A + B7) and B12 / B8A; a
    pixel of the new band is masked exactly where one of its two inputs
    is. *)
Theorem NDRE3_and_RDI_with_their_bands
    {V : Type} `{Numeric V} (image : Image V) :
  In "B8A" (bandNames image) ->
  exists B8A,
    select image "B8A" = Done B8A
    /\ (In "B7" (bandNames image) ->
        exists B7 NDRE3,
          select image "B7" = Done B7
          /\ addNDRE3 image = Done (image ++ [NDRE3])
          /\ b_name NDRE3 = fresh_name (bandNames image) "NDRE3"
          /\ forall p,
               b_px NDRE3 p
               = match b_px B8A p, b_px B7 p with
                 | Some re4, Some re3 => Some (div (sub re4 re3) (add re4 re3))
                 | _, _ => None
                 end)
    /\ (In "B12" (bandNames image) ->
        exists B12 RDI,
          select image "B12" = Done B12
          /\ addRDI image = Done (image ++ [RDI])
          /\ b_name RDI = fresh_name (bandNames image) "RDI"
          /\ forall p,
               b_px RDI p
               = match b_px B12 p, b_px B8A p with
                 | Some swir2, Some re4 => Some (div swir2 re4)
                 | _, _ => None
                 end).
Proof.
  intros H8.
  destruct (select_present image "B8A" H8) as (B8A & E8 & _ & _).
  exists B8A. split; [exact E8|]. split.
  - intros H7. destruct (select_present image "B7" H7) as (B7 & E7 & _ & _).
    unfold addNDRE3, Algorithms_If, every, with_NDRE3. cbn [forallb as_js truthy andb].
    rewrite E8, E7. cbn [bind].
    eexists B7, _. split; [reflexivity|]. split; [reflexivity|].
    split; [reflexivity|].
    intros p. cbn [rename named b_px].
    cbn [eval lookup_var List.find fst snd String.eqb Ascii.eqb Bool.eqb
         option_map lift2].
    destruct (b_px B8A p), (b_px B7 p); reflexivity.
  - intros H12. destruct (select_present image "B12" H12) as (B12 & E12 & _ & _).
    unfold addRDI, Algorithms_If, every, with_RDI. cbn [forallb as_js truthy andb].
    rewrite E8, E12. cbn [bind].
    eexists B12, _. split; [reflexivity|]. split; [reflexivity|].
    split; [reflexivity|].
    intros p. cbn [rename named b_px].
    cbn [eval lookup_var List.find fst snd String.eqb Ascii.eqb Bool.eqb
         option_map lift2].
    destruct (b_px B12 p), (b_px B8A p); reflexivity.
Qed.

Lemma NDRE3_and_RDI_with_their_bands_witness :
  exists B8A,
    select s2_image "B8A" = Done B8A
    /\ (exists B7 NDRE3,
          select s2_image "B7" = Done B7
          /\ addNDRE3 s2_image = Done (s2_image ++ [NDRE3])
          /\ b_name NDRE3 = fresh_name (bandNames s2_image) "NDRE3"
          /\ forall p,
               b_px NDRE3 p
               = match b_px B8A p, b_px B7 p with
                 | Some re4, Some re3 => Some (div (sub re4 re3) (add re4 re3))
                 | _, _ => None
                 end).
Proof.
  destruct (NDRE3_and_RDI_with_their_bands s2_image) as (B8A & E & H7 & _).
  - cbn. tauto.
  - exists B8A. split; [exact E|]. apply H7. cbn. tauto.
Defined.

(** ** Real-valued pixels: ranges and relations *)

Local Open Scope R_scope.

Lemma normalized_difference_bounds (a b : R) :
  0 <= a -> 0 <= b -> -1 <= (a - b) / (a + b) <= 1.
Proof.
  intros Ha Hb. destruct (Req_dec (a + b) 0) as [H0|Hne].
  - assert (a = 0) by lra. assert (b = 0) by lra. subst.
    unfold Rdiv. rewrite Rminus_diag, Rmult_0_l. lra.
  - assert (Hpos : 0 < a + b) by lra.
    assert (Hinv : 0 < / (a + b)) by now apply Rinv_0_lt_compat.
    unfold Rdiv. split.
    + apply (Rmult_le_reg_r (a + b)); [exact Hpos|].
      rewrite Rmult_assoc, Rinv_l by exact Hne. lra.
    + apply (Rmult_le_reg_r (a + b)); [exact Hpos|].
      rewrite Rmult_assoc, Rinv_l by exact Hne. lra.
Qed.

Lemma nd_pixel_bounds (x y : Band R) (p : pixel) (v : R) :
  match b_px x p, b_px y p with
  | Some u, Some w =>
      if is_neg u || is_neg w then None else Some (div (sub u w) (add u w))
  | _, _ => None
  end = Some v ->
  -1 <= v <= 1.
Proof.
  destruct (b_px x p) as [u|], (b_px y p) as [w|]; try discriminate.
  cbn. destruct (Rlt_dec u 0) as [?|Hu]; [discriminate|].
  destruct (Rlt_dec w 0) as [?|Hw]; [discriminate|]. cbn.
  intros [= <-]. apply normalized_difference_bounds; lra.
Qed.

(** X8.  With real-valued pixels, the NDVI and GNDVI bands that [addNDVI]
    and [addGNDVI] append hold, at every pixel where they are valid, a value
    between -1 and 1: [normalizedDifference] masks the pixels with a negative
    input, the only ones where the ratio could leave that range. *)
Theorem NDVI_and_GNDVI_between_minus_one_and_one (image : Image R) :
  In "B8" (bandNames image) ->
  (In "B4" (bandNames image) ->
   exists NDVI,
     addNDVI image = Done (image ++ [NDVI])
     /\ forall p v, b_px NDVI p = Some v -> -1 <= v <= 1)
  /\ (In "B3" (bandNames image) ->
      exists GNDVI,
        addGNDVI image = Done (image ++ [GNDVI])
        /\ forall p v, b_px GNDVI p = Some v -> -1 <= v <= 1).
Proof.
  intros H8.
  destruct (select_present image "B8" H8) as (B8 & E8 & _ & _).
  split; intros Hb;
    [destruct (select_present image "B4" Hb) as (b & Eb & _ & _)
    |destruct (select_present image "B3" Hb) as (b & Eb & _ & _)];
    unfold addNDVI, addGNDVI, normalizedDifference;
    rewrite E8, Eb; cbn [bind]; rewrite addBands_one;
    (eexists; split; [reflexivity|]);
    intros p v Hv; cbn [rename b_px] in Hv;
    eapply nd_pixel_bounds; exact Hv.
Qed.

Lemma NDVI_and_GNDVI_between_minus_one_and_one_witness :
  (exists NDVI,
     addNDVI s2_image = Done (s2_image ++ [NDVI])
     /\ forall p v, b_px NDVI p = Some v -> -1 <= v <= 1)
  /\ (exists GNDVI,
        addGNDVI s2_image = Done (s2_image ++ [GNDVI])
        /\ forall p v, b_px GNDVI p = Some v -> -1 <= v <= 1).
Proof.
  destruct (NDVI_and_GNDVI_between_minus_one_and_one s2_image) as [H4 H3].
  - cbn. tauto.
  - split; [apply H4|apply H3]; cbn; tauto.
Defined.

(** X9.  [addGNDVI] and [addNDWI] read the same two bands, B8 and B3, with
    the roles swapped.  With real-valued pixels, wherever GNDVI is valid NDWI
    is valid too and NDWI = -GNDVI; but NDWI, computed with an expression, is
    also valid where B8 or B3 is negative, where GNDVI is masked. *)
Theorem NDWI_is_minus_GNDVI (image : Image R) :
  In "B8" (bandNames image) -> In "B3" (bandNames image) ->
  exists B8 B3 GNDVI NDWI,
    select image "B8" = Done B8 /\ select image "B3" = Done B3
    /\ addGNDVI image = Done (image ++ [GNDVI])
    /\ addNDWI image = Done (image ++ [NDWI])
    /\ (forall p v, b_px GNDVI p = Some v -> b_px NDWI p = Some (- v))
    /\ (forall p, is_Some (b_px NDWI p)
                  <-> is_Some (b_px B8 p) /\ is_Some (b_px B3 p))
    /\ (forall p nir green,
          b_px B8 p = Some nir -> b_px B3 p = Some green ->
          nir < 0 \/ green < 0 ->
          b_px GNDVI p = None
          /\ b_px NDWI p = Some ((green - nir) / (green + nir))).
Proof.
  intros H8 H3.
  destruct (select_present image "B8" H8) as (B8 & E8 & _ & _).
  destruct (select_present image "B3" H3) as (B3 & E3 & _ & _).
  unfold addGNDVI, addNDWI, normalizedDifference. rewrite E8, E3. cbn [bind].
  eexists B8, B3, _, _. split; [reflexivity|]. split; [reflexivity|].
  split; [reflexivity|]. split; [reflexivity|].
  cbn [rename named b_px].
  cbn [eval lookup_var List.find fst snd String.eqb Ascii.eqb Bool.eqb
       option_map lift2].
  split; [|split].
  - intros p v. destruct (b_px B8 p) as [nir|], (b_px B3 p) as [green|];
      try discriminate. cbn.
    destruct (Rlt_dec nir 0); [discriminate|].
    destruct (Rlt_dec green 0); [discriminate|]. cbn.
    intros [= <-]. f_equal. unfold Rdiv.
    replace (green + nir) with (nir + green) by lra. lra.
  - intros p. destruct (b_px B8 p) as [nir|], (b_px B3 p) as [green|]; cbn;
      split; try (intros [? ?]; discriminate);
      try (intros [[? ?] [? ?]]; discriminate); eauto.
  - intros p nir green -> -> Hneg. cbn.
    destruct (Rlt_dec nir 0) as [?|Hn]; [split; reflexivity|].
    destruct (Rlt_dec green 0) as [?|Hg]; [split; reflexivity|].
    exfalso. lra.
Qed.

Lemma NDWI_is_minus_GNDVI_witness :
  exists B8 B3 GNDVI NDWI,
    select s2_image "B8" = Done B8 /\ select s2_image "B3" = Done B3
    /\ addGNDVI s2_image = Done (s2_image ++ [GNDVI])
    /\ addNDWI s2_image = Done (s2_image ++ [NDWI])
    /\ (forall p v, b_px GNDVI p = Some v -> b_px NDWI p = Some (- v))
    /\ (forall p, is_Some (b_px NDWI p)
                  <-> is_Some (b_px B8 p) /\ is_Some (b_px B3 p))
    /\ (forall p nir green,
          b_px B8 p = Some nir -> b_px B3 p = Some green ->
          nir < 0 \/ green < 0 ->
          b_px GNDVI p = None
          /\ b_px NDWI p = Some ((green - nir) / (green + nir))).
Proof. apply (NDWI_is_minus_GNDVI s2_image); cbn; tauto. Defined.

(** X10.  With real-valued pixels the DRS band that [addDRS] appends,
    sqrt(B4^2 + B11^2), is never negative, and it is valid exactly where both
    B4 and B11 are. *)
Theorem DRS_is_a_distance (image : Image R) :
  In "B11" (bandNames image) -> In "B4" (bandNames image) ->
  exists B11 B4 DRS,
    select image "B11" = Done B11 /\ select image "B4" = Done B4
    /\ addDRS image = Done (image ++ [DRS])
    /\ (forall p swir red,
          b_px B11 p = Some swir -> b_px B4 p = Some red ->
          b_px DRS p = Some (R_sqrt.sqrt (red * red + swir * swir)))
    /\ (forall p, is_Some (b_px DRS p)
                  <-> is_Some (b_px B11 p) /\ is_Some (b_px B4 p))
    /\ (forall p v, b_px DRS p = Some v -> 0 <= v).
Proof.
  intros H11 H4.
  destruct (select_present image "B11" H11) as (B11 & E11 & _ & _).
  destruct (select_present image "B4" H4) as (B4 & E4 & _ & _).
  unfold addDRS. rewrite E11, E4. cbn [bind].
  eexists B11, B4, _. split; [reflexivity|]. split; [reflexivity|].
  split; [reflexivity|].
  cbn [rename named b_px].
  cbn [eval lookup_var List.find fst snd String.eqb Ascii.eqb Bool.eqb
       option_map lift2].
  split; [|split].
  - intros p swir red -> ->. reflexivity.
  - intros p. destruct (b_px B11 p), (b_px B4 p); cbn;
      split; try (intros [? ?]; discriminate);
      try (intros [[? ?] [? ?]]; discriminate); eauto.
  - intros p v. destruct (b_px B11 p), (b_px B4 p); cbn; try discriminate.
    intros [= <-]. apply sqrt_pos.
Qed.

Lemma DRS_is_a_distance_witness :
  exists B11 B4 DRS,
    select s2_image "B11" = Done B11 /\ select s2_image "B4" = Done B4
    /\ addDRS s2_image = Done (s2_image ++ [DRS])
    /\ (forall p swir red,
          b_px B11 p = Some swir -> b_px B4 p = Some red ->
          b_px DRS p = Some (R_sqrt.sqrt (red * red + swir * swir)))
    /\ (forall p, is_Some (b_px DRS p)
                  <-> is_Some (b_px B11 p) /\ is_Some (b_px B4 p))
    /\ (forall p v, b_px DRS p = Some v -> 0 <= v).
Proof. apply (DRS_is_a_distance s2_image); cbn; tauto. Defined.

End SentinelMore.

(* ===================================================================== *)
(** * Properties of cloud masking followed by NDVI *)
(* ===================================================================== *)

Module SentinelPipelineTheory.
Import EE JS Sentinel SentinelPipeline EETheory SentinelTheory SentinelMore.
Local Open Scope string_scope.
Local Open Scope list_scope.

(** Selecting from an image whose bands were transformed one by one, names
    kept. *)
Lemma select_map {A B} (g : Band A -> Band B) (image : Image A) (name : string) :
  (forall b, b_name (g b) = b_name b) ->
  select (map g image) name
  = match select image name with
    | Done b => Done (g b)
    | Failed msg => Failed msg
    end.
Proof.
  intros Hg. unfold select. induction image as [|b bs IH]; [reflexivity|].
  cbn [map List.find]. rewrite Hg.
  destruct (String.eqb (b_name b) name); [reflexivity|exact IH].
Qed.

Lemma cloud_masked_band {V} `{Numeric V} (qa b : Band Z) (p : pixel) :
  b_px (map_px (fun v => div (lit (inject_Z v)) (lit (inject_Z 10000)))
          {| b_name := b_name b;
             b_px := fun p =>
               match b_px (and_ (eq_const (bitwiseAnd qa (Z.shiftl 1 10)) 0)
                                (eq_const (bitwiseAnd qa (Z.shiftl 1 11)) 0)) p with
               | Some m => if (m =? 0)%Z then None else b_px b p
               | None => None
               end |}) p
  = cloud_masked (b_px b p) (b_px qa p).
Proof.
  unfold cloud_masked.
  cbn [b_px map_px and_ eq_const bitwiseAnd option_map].
  destruct (b_px qa p) as [q|]; cbn [option_map];
    [|now destruct (b_px b p)].
  rewrite !land_bit_is_zero by lia.
  destruct (Z.testbit q 10), (Z.testbit q 11), (b_px b p); reflexivity.
Qed.

Local Open Scope R_scope.

Lemma lit_Z (v : Z) : lit (inject_Z v) = IZR v.
Proof. cbn. unfold Q2R. cbn. rewrite Rinv_1. apply Rmult_1_r. Qed.

Lemma lit_10000 : lit 10000%Q = 10000.
Proof. cbn. unfold Q2R. cbn. lra. Qed.

Lemma scaled_is_neg (v : Z) :
  is_neg (IZR v / 10000) = negb (0 <=? v)%Z.
Proof.
  cbn. destruct (Z.leb_spec 0 v) as [Hv|Hv]; cbn [negb].
  - apply IZR_le in Hv. destruct (Rlt_dec _ _) as [Hlt|_]; [|reflexivity].
    exfalso. assert (0 <= IZR v / 10000); [|lra].
    apply Rmult_le_pos; [exact Hv|]. lra.
  - apply IZR_lt in Hv. destruct (Rlt_dec _ _) as [_|Hge]; [reflexivity|].
    exfalso. apply Hge. lra.
Qed.

Lemma scaled_not_negative (v : Z) : (0 <= v)%Z -> 0 <= IZR v / 10000.
Proof.
  intros Hv. apply IZR_le in Hv. apply Rmult_le_pos; [exact Hv|]. lra.
Qed.

(** X27.  Cloud masking followed by [addNDVI], with real-valued pixels: the
    NDVI band is valid exactly at the pixels that are clear (bits 10 and 11
    of QA60 zero) and whose B8 and B4 are not negative; there it is the
    normalized difference of the two scaled values, B8 / 10000 and
    B4 / 10000, and lies between -1 and 1. *)
Theorem NDVI_of_cloud_masked_image (image : Image Z) :
  In "QA60" (bandNames image) ->
  In "B8" (bandNames image) ->
  In "B4" (bandNames image) ->
  exists qa B8 B4 masked NDVI,
    select image "QA60" = Done qa
    /\ select image "B8" = Done B8
    /\ select image "B4" = Done B4
    /\ maskS2clouds image = Done masked
    /\ masked_NDVI image = Done (masked ++ [NDVI])
    /\ forall p nir red q,
         b_px B8 p = Some nir -> b_px B4 p = Some red -> b_px qa p = Some q ->
         b_px NDVI p
         = (if clear q && (0 <=? nir)%Z && (0 <=? red)%Z
            then Some ((IZR nir / 10000 - IZR red / 10000)
                       / (IZR nir / 10000 + IZR red / 10000))
            else None)
         /\ forall v, b_px NDVI p = Some v -> -1 <= v <= 1.
Proof.
  intros Hqa H8 H4.
  destruct (select_present image "QA60" Hqa) as (qa & Eqa & _ & _).
  destruct (select_present image "B8" H8) as (B8 & E8 & _ & _).
  destruct (select_present image "B4" H4) as (B4 & E4 & _ & _).
  exists qa, B8, B4.
  unfold masked_NDVI, maskS2clouds. rewrite Eqa. cbn [bind].
  unfold divide, updateMask. rewrite map_map.
  eexists. eexists. split; [reflexivity|]. split; [exact E8|].
  split; [exact E4|]. split; [reflexivity|].
  unfold addNDVI, normalizedDifference.
  rewrite !select_map by reflexivity. rewrite E8, E4. cbn [bind].
  rewrite addBands_one. split; [reflexivity|].
  intros p nir red q Hnir Hred Hq. cbn [rename b_px].
  rewrite !cloud_masked_band, Hnir, Hred, Hq. unfold cloud_masked, clear.
  destruct (negb (Z.testbit q 10) && negb (Z.testbit q 11));
    [|split; [reflexivity|discriminate]].
  rewrite !lit_Z, !lit_10000. cbn [andb].
  change (@div R Numeric_R) with Rdiv. change (@sub R Numeric_R) with Rminus.
  change (@add R Numeric_R) with Rplus.
  rewrite !scaled_is_neg.
  destruct (Z.leb_spec 0 nir) as [Hn|_]; [|split; [reflexivity|discriminate]].
  destruct (Z.leb_spec 0 red) as [Hr|_]; [|split; [reflexivity|discriminate]].
  cbn [negb orb andb]. split; [reflexivity|].
  intros v [= <-].
  apply normalized_difference_bounds; now apply scaled_not_negative.
Qed.

Lemma NDVI_of_cloud_masked_image_witness :
  exists qa B8 B4 masked NDVI,
    select raw_s2 "QA60" = Done qa
    /\ select raw_s2 "B8" = Done B8
    /\ select raw_s2 "B4" = Done B4
    /\ maskS2clouds raw_s2 = Done masked
    /\ masked_NDVI raw_s2 = Done (masked ++ [NDVI])
    /\ forall p nir red q,
         b_px B8 p = Some nir -> b_px B4 p = Some red -> b_px qa p = Some q ->
         b_px NDVI p
         = (if clear q && (0 <=? nir)%Z && (0 <=? red)%Z
            then Some ((IZR nir / 10000 - IZR red / 10000)
                       / (IZR nir / 10000 + IZR red / 10000))
            else None)
         /\ forall v, b_px NDVI p = Some v -> -1 <= v <= 1.
Proof.
  apply (NDVI_of_cloud_masked_image raw_s2); cbn; tauto.
Defined.

End SentinelPipelineTheory.

(* ===================================================================== *)
(** * Properties of addNDRS *)
(* ===================================================================== *)

Module SentinelNDRSTheory.
Import EE JS Sentinel SentinelNDRS EETheory.
Local Open Scope string_scope.
Local Open Scope list_scope.

Lemma NDRS_name (forestTypes : list Z) :
  replace "NDRS_coni_deci_mixed" "NDRS_mixed"
          ("NDRS" ++ suffix_of forestTypes)%string
  = ndrs_band_name forestTypes.
Proof.
  unfold suffix_of, ndrs_band_name, Algorithms_If.
  destruct forestTypes as [|z [|z' rest]]; cbn [length Nat.eqb head].
  - repeat case_decide; try discriminate. reflexivity.
  - repeat case_bool_decide; repeat case_decide; simplify_eq; reflexivity.
  - repeat case_decide; try discriminate. reflexivity.
Qed.

(** X12.  On an image with a DRS band for which the forest statistics are
    available, [addNDRS] returns the input image followed by one new band.
    The band is called NDRS_coni for [forestTypes = [210]], NDRS_deci for
    [[220]] and NDRS_mixed in every other case: no argument, several types,
    a single type other than 210 and 220, or an empty array (with a
    numerical suffix if the image already has a band of that name).  Without
    a DRS band the function fails. *)
Theorem addNDRS_appends_named_band
    {V : Type} `{Numeric V} `{Clamp V}
    (forest_minMax : Image V -> Band V -> list Z -> Computed (V * V))
    (image : Image V) (forestTypes : option (list Z)) :
  (In "DRS" (bandNames image) ->
   forall DRS minMax,
     select image "DRS" = Done DRS ->
     forest_minMax image DRS (or_default forestTypes) = Done minMax ->
     exists NDRS,
       addNDRS forest_minMax image forestTypes = Done (image ++ [NDRS])
       /\ b_name NDRS
          = fresh_name (bandNames image) (ndrs_band_name (or_default forestTypes))
       /\ (~ In (ndrs_band_name (or_default forestTypes)) (bandNames image) ->
           b_name NDRS = ndrs_band_name (or_default forestTypes)))
  /\ (~ In "DRS" (bandNames image) ->
      exists msg, addNDRS forest_minMax image forestTypes = Failed msg)
  /\ ndrs_band_name (or_default (Some [210%Z])) = "NDRS_coni"
  /\ ndrs_band_name (or_default (Some [220%Z])) = "NDRS_deci"
  /\ ndrs_band_name (or_default None) = "NDRS_mixed"
  /\ ndrs_band_name (or_default (Some [])) = "NDRS_mixed"
  /\ ndrs_band_name (or_default (Some [230%Z])) = "NDRS_mixed"
  /\ ndrs_band_name (or_default (Some [210%Z; 220%Z])) = "NDRS_mixed".
Proof.
  split; [|split; [|repeat split]].
  - intros _ DRS minMax HDRS Hmm. unfold addNDRS.
    fold (or_default forestTypes). rewrite HDRS. cbn [bind]. rewrite Hmm.
    cbn [bind]. unfold expression. cbn [bound has_name map fst existsb andb orb].
    cbn [String.eqb Ascii.eqb Bool.eqb andb orb bind].
    cbn [named rename b_name].
    rewrite addBands_one. cbn [rename b_name].
    rewrite NDRS_name.
    eexists. split; [reflexivity|]. split; [reflexivity|].
    intros Hfree. cbn [b_name]. now apply fresh_name_free.
  - intros Hno. unfold addNDRS. rewrite (select_absent image "DRS" Hno).
    cbn. eauto.
Qed.

(** On the sample image, with the default forest types. *)
Lemma addNDRS_appends_named_band_witness :
  exists NDRS,
    addNDRS sample_minMax drs_image None = Done (drs_image ++ [NDRS])
    /\ b_name NDRS
       = fresh_name (bandNames drs_image) (ndrs_band_name (or_default None))
    /\ (~ In (ndrs_band_name (or_default None)) (bandNames drs_image) ->
        b_name NDRS = ndrs_band_name (or_default None)).
Proof.
  apply (proj1 (addNDRS_appends_named_band sample_minMax drs_image None)
               ltac:(cbn; tauto)
               (constant_band "DRS" 0.3%R) (0.1%R, 0.5%R) eq_refl eq_refl).
Defined.

Local Open Scope R_scope.

Lemma clamped_ratio (lo hi d : R) :
  lo < hi ->
  let v := (Rmax lo (Rmin hi d) - lo) / (hi - lo) in
  0 <= v <= 1
  /\ (d <= lo -> v = 0)
  /\ (hi <= d -> v = 1)
  /\ (lo <= d <= hi -> v = (d - lo) / (hi - lo)).
Proof.
  intros Hlt v. subst v.
  assert (Hw : 0 < hi - lo) by lra.
  assert (Hne : hi - lo <> 0) by lra.
  assert (Hc : lo <= Rmax lo (Rmin hi d) <= hi).
  { unfold Rmax, Rmin. repeat destruct (Rle_dec _ _); lra. }
  unfold Rdiv. repeat split.
  - apply (Rmult_le_reg_r (hi - lo)); [exact Hw|].
    rewrite Rmult_assoc, Rinv_l by exact Hne. lra.
  - apply (Rmult_le_reg_r (hi - lo)); [exact Hw|].
    rewrite Rmult_assoc, Rinv_l by exact Hne. lra.
  - intros Hd. replace (Rmax lo (Rmin hi d)) with lo.
    + rewrite Rminus_diag. apply Rmult_0_l.
    + unfold Rmax, Rmin. repeat destruct (Rle_dec _ _); lra.
  - intros Hd. replace (Rmax lo (Rmin hi d)) with hi.
    + now apply Rinv_r.
    + unfold Rmax, Rmin. repeat destruct (Rle_dec _ _); lra.
  - intros Hd. replace (Rmax lo (Rmin hi d)) with d; [reflexivity|].
    unfold Rmax, Rmin. repeat destruct (Rle_dec _ _); lra.
Qed.

(** X13.  With real-valued pixels and forest statistics [DRSmin < DRSmax],
    the band [addNDRS] appends is DRS rescaled to the range of the forest
    pixels: every valid value lies between 0 and 1; it is 0 where DRS is at
    or below DRSmin, 1 where DRS is at or above DRSmax, and
    (DRS - DRSmin) / (DRSmax - DRSmin) in between; it is masked exactly
    where DRS is. *)
Theorem NDRS_between_zero_and_one
    (forest_minMax : Image R -> Band R -> list Z -> Computed (R * R))
    (image : Image R) (forestTypes : option (list Z))
    (DRS : Band R) (DRSmin DRSmax : R) :
  select image "DRS" = Done DRS ->
  forest_minMax image DRS (or_default forestTypes) = Done (DRSmin, DRSmax) ->
  DRSmin < DRSmax ->
  exists NDRS,
    addNDRS forest_minMax image forestTypes = Done (image ++ [NDRS])
    /\ forall p,
         match b_px DRS p with
         | None => b_px NDRS p = None
         | Some d =>
             exists v,
               b_px NDRS p = Some v
               /\ 0 <= v <= 1
               /\ (d <= DRSmin -> v = 0)
               /\ (DRSmax <= d -> v = 1)
               /\ (DRSmin <= d <= DRSmax ->
                   v = (d - DRSmin) / (DRSmax - DRSmin))
         end.
Proof.
  intros HDRS Hmm Hlt. unfold addNDRS.
  fold (or_default forestTypes). rewrite HDRS. cbn [bind]. rewrite Hmm.
  cbn [bind]. unfold expression. cbn [bound has_name map fst existsb andb orb].
  cbn [String.eqb Ascii.eqb Bool.eqb andb orb bind].
  rewrite addBands_one.
  eexists. split; [reflexivity|].
  intros p. cbn [rename named b_px map_px fst snd].
  cbn [eval lookup_var List.find fst snd String.eqb Ascii.eqb Bool.eqb
       option_map lift2 constant].
  destruct (b_px DRS p) as [d|]; [|reflexivity].
  cbn [option_map lift2]. eexists. split; [reflexivity|].
  apply (clamped_ratio DRSmin DRSmax d Hlt).
Qed.

Lemma NDRS_between_zero_and_one_witness :
  exists NDRS,
    addNDRS sample_minMax drs_image (Some [210%Z]) = Done (drs_image ++ [NDRS])
    /\ forall p,
         match b_px (constant_band "DRS" 0.3) p with
         | None => b_px NDRS p = None
         | Some d =>
             exists v,
               b_px NDRS p = Some v
               /\ 0 <= v <= 1
               /\ (d <= 0.1 -> v = 0)
               /\ (0.5 <= d -> v = 1)
               /\ (0.1 <= d <= 0.5 -> v = (d - 0.1) / (0.5 - 0.1))
         end.
Proof.
  apply (NDRS_between_zero_and_one sample_minMax drs_image (Some [210%Z])
           (constant_band "DRS" 0.3) 0.1 0.5 eq_refl eq_refl).
  lra.
Defined.

Local Close Scope R_scope.

Lemma addNDRS_run
    {V : Type} `{Numeric V} `{Clamp V}
    (forest_minMax : Image V -> Band V -> list Z -> Computed (V * V))
    (image : Image V) (forestTypes : option (list Z)) :
  In "DRS" (bandNames image) ->
  (forall img DRS types, exists minMax, forest_minMax img DRS types = Done minMax) ->
  exists r,
    addNDRS forest_minMax image forestTypes
    = Done (image ++ [named r (fresh_name (bandNames image)
                                 (ndrs_band_name (or_default forestTypes)))]).
Proof.
  intros Hin Hstats.
  destruct (select_present image "DRS" Hin) as (DRS & HDRS & _ & _).
  destruct (Hstats image DRS (or_default forestTypes)) as (minMax & Hmm).
  unfold addNDRS. fold (or_default forestTypes).
  rewrite HDRS. cbn [bind]. rewrite Hmm.
  cbn [bind]. unfold expression. cbn [bound has_name map fst existsb andb orb].
  cbn [String.eqb Ascii.eqb Bool.eqb andb orb bind].
  cbn [named rename b_name].
  rewrite addBands_one. cbn [rename b_name b_px].
  rewrite NDRS_name.
  eexists. reflexivity.
Qed.

Lemma bandNames_app {V} (image extra : Image V) :
  bandNames (image ++ extra) = bandNames image ++ bandNames extra.
Proof. apply map_app. Qed.

(** X14.  The three calls of the Sentinel-2 time-series script -
    [addNDRS(image, [210])], [addNDRS(image, [220])], [addNDRS(image)] - on
    an image that has a DRS band and no NDRS band yet, with forest
    statistics available: the result is the input image followed by three
    new bands named NDRS_coni, NDRS_deci and NDRS_mixed, in this order. *)
Theorem NDRS_pipeline_appends_three_bands
    {V : Type} `{Numeric V} `{Clamp V}
    (forest_minMax : Image V -> Band V -> list Z -> Computed (V * V))
    (image : Image V) :
  In "DRS" (bandNames image) ->
  (forall img DRS types, exists minMax, forest_minMax img DRS types = Done minMax) ->
  ~ In "NDRS_coni" (bandNames image) ->
  ~ In "NDRS_deci" (bandNames image) ->
  ~ In "NDRS_mixed" (bandNames image) ->
  exists coni deci mixed,
    add_all_NDRS forest_minMax image = Done (image ++ [coni; deci; mixed])
    /\ b_name coni = "NDRS_coni"
    /\ b_name deci = "NDRS_deci"
    /\ b_name mixed = "NDRS_mixed".
Proof.
  intros Hin Hstats Hc Hd Hm. unfold add_all_NDRS.
  destruct (addNDRS_run forest_minMax image (Some [210%Z]) Hin Hstats)
    as (r1 & E1).
  rewrite E1. cbn [bind].
  change (ndrs_band_name (or_default (Some [210%Z]))) with "NDRS_coni" in *.
  rewrite (fresh_name_free _ _ Hc) in *.
  set (image1 := image ++ [named r1 "NDRS_coni"]) in *.
  assert (Hin1 : In "DRS" (bandNames image1)).
  { unfold image1. rewrite bandNames_app. apply in_or_app. now left. }
  destruct (addNDRS_run forest_minMax image1 (Some [220%Z]) Hin1 Hstats)
    as (r2 & E2).
  rewrite E2. cbn [bind].
  change (ndrs_band_name (or_default (Some [220%Z]))) with "NDRS_deci" in *.
  assert (Hd1 : ~ In "NDRS_deci" (bandNames image1)).
  { unfold image1. rewrite bandNames_app. intros Hx.
    apply in_app_or in Hx as [Hx|Hx]; [contradiction|].
    cbn in Hx. destruct Hx as [Hx|[]]. discriminate. }
  rewrite (fresh_name_free _ _ Hd1) in *.
  set (image2 := image1 ++ [named r2 "NDRS_deci"]) in *.
  assert (Hin2 : In "DRS" (bandNames image2)).
  { unfold image2. rewrite bandNames_app. apply in_or_app. now left. }
  destruct (addNDRS_run forest_minMax image2 None Hin2 Hstats) as (r3 & E3).
  rewrite E3.
  change (ndrs_band_name (or_default None)) with "NDRS_mixed" in *.
  assert (Hm2 : ~ In "NDRS_mixed" (bandNames image2)).
  { unfold image2, image1. rewrite !bandNames_app. intros Hx.
    apply in_app_or in Hx as [Hx|Hx];
      [apply in_app_or in Hx as [Hx|Hx]; [contradiction|]|];
      cbn in Hx; destruct Hx as [Hx|[]]; discriminate. }
  rewrite (fresh_name_free _ _ Hm2).
  exists (named r1 "NDRS_coni"), (named r2 "NDRS_deci"), (named r3 "NDRS_mixed").
  split; [|now repeat split].
  unfold image2, image1. now rewrite <- !app_assoc.
Qed.

Lemma NDRS_pipeline_appends_three_bands_witness :
  exists coni deci mixed,
    add_all_NDRS sample_minMax drs_image = Done (drs_image ++ [coni; deci; mixed])
    /\ b_name coni = "NDRS_coni"
    /\ b_name deci = "NDRS_deci"
    /\ b_name mixed = "NDRS_mixed".
Proof.
  apply (NDRS_pipeline_appends_three_bands sample_minMax drs_image).
  - cbn. tauto.
  - intros img DRS types. eexists. reflexivity.
  - cbn. intros [Hx|[Hx|[Hx|[]]]]; discriminate.
  - cbn. intros [Hx|[Hx|[Hx|[]]]]; discriminate.
  - cbn. intros [Hx|[Hx|[Hx|[]]]]; discriminate.
Defined.

End SentinelNDRSTheory.

(* ===================================================================== *)
(** * Further properties of the export loops and of their callers *)
(* ===================================================================== *)

Module ExportingMore.
Import JS Exporting ExportingTheory ExportCallers.
Local Open Scope string_scope.
Local Open Scope list_scope.

(** A loop whose body is known on the elements of the list only. *)
Lemma forEach_run_in {A} (body : A -> Js unit)
      (sub : A -> list export_task) (rep : A -> list (list string)) (xs : list A) :
  (forall x c, In x xs ->
               body x c
               = ({| tasks := tasks c ++ sub x; console := console c ++ rep x |},
                  Normal tt)) ->
  forall c,
    forEach body xs c
    = ({| tasks := tasks c ++ flat_map sub xs;
          console := console c ++ flat_map rep xs |}, Normal tt).
Proof.
  induction xs as [|x xs IH]; intros Hbody c.
  - cbn. unfold ret. destruct c; cbn. now rewrite !app_nil_r.
  - cbn [forEach flat_map]. unfold bind. rewrite Hbody by now left.
    rewrite IH by (intros y c' Hy; apply Hbody; now right). cbn.
    now rewrite !app_assoc.
Qed.

Lemma exportImageCollection_run
    (col : collection) (aoi : geometry) (folder_ : string) (scale_ : Q)
    (crs_ : string) (size : nat) (c : client)
    (fileNameFn : ee_image -> completion js_value) :
  size_getInfo col = Normal size ->
  exportImageCollection col aoi folder_ scale_ crs_ fileNameFn c
  = ({| tasks := tasks c
                 ++ flat_map (fun i => submitted
                                (image_handling aoi folder_ scale_ crs_ fileNameFn i))
                             (seq 0 size);
        console := console c
                   ++ flat_map (fun i => reported
                                  (image_handling aoi folder_ scale_ crs_ fileNameFn i))
                               (seq 0 size) |},
     Normal tt).
Proof.
  intros Hsize.
  unfold exportImageCollection, bind at 1. unfold lift at 1. rewrite Hsize.
  apply (forEach_run _
           (fun i => submitted (image_handling aoi folder_ scale_ crs_ fileNameFn i))
           (fun i => reported (image_handling aoi folder_ scale_ crs_ fileNameFn i))).
  intros i c'. apply image_body_run.
Qed.

Lemma exportBandsByYear_run
    (col : collection) (aoi : geometry) (folder_ : string) (scale_ : Q)
    (crs_ : string) (size : nat) (c : client)
    (fileNameFn : ee_image -> string -> completion js_value) :
  size_getInfo col = Normal size ->
  exportBandsByYear col aoi folder_ scale_ crs_ fileNameFn c
  = ({| tasks := tasks c
                 ++ flat_map (fun i => fst
                                (year_handling col aoi folder_ scale_ crs_ fileNameFn i))
                             (seq 0 size);
        console := console c
                   ++ flat_map (fun i => reported_opt (snd
                                  (year_handling col aoi folder_ scale_ crs_ fileNameFn i)))
                               (seq 0 size) |},
     Normal tt).
Proof.
  intros Hsize.
  unfold exportBandsByYear, bind at 1. unfold lift at 1. rewrite Hsize.
  apply (forEach_run _
           (fun i => fst (year_handling col aoi folder_ scale_ crs_ fileNameFn i))
           (fun i => reported_opt
                       (snd (year_handling col aoi folder_ scale_ crs_ fileNameFn i)))).
  intros i c'. apply year_body_run.
Qed.

Lemma one_outcome_each {A} (h : A -> export_task + exn) (xs : list A) :
  (length (flat_map (fun x => submitted (h x)) xs)
   + length (flat_map (fun x => reported (h x)) xs) = length xs)%nat.
Proof.
  induction xs as [|x xs IH]; [reflexivity|].
  cbn [flat_map]. rewrite !length_app. cbn [length].
  destruct (h x); cbn; lia.
Qed.

Lemma at_most_one_report_each {A} (h : A -> option exn) (xs : list A) :
  (length (flat_map (fun x => reported_opt (h x)) xs) <= length xs)%nat.
Proof.
  induction xs as [|x xs IH]; [reflexivity|].
  cbn [flat_map]. rewrite length_app. cbn [length].
  destruct (h x); cbn; lia.
Qed.

(** X15.  When the size of the collection can be fetched, neither export
    function throws, and neither touches what the client had queued or
    printed before.  [exportImageCollection] leaves exactly one trace per
    image, a queued task or a console line: the numbers of new tasks and of
    new console lines add up to the size of the collection.
    [exportBandsByYear] prints at most one line per image. *)
Theorem export_loops_account_for_every_image
    (col : collection) (aoi : geometry) (folder_ : string) (scale_ : Q)
    (crs_ : string) (size : nat) (c : client) :
  size_getInfo col = Normal size ->
  (forall fileNameFn : ee_image -> completion js_value,
     let run := exportImageCollection col aoi folder_ scale_ crs_ fileNameFn c in
     snd run = Normal tt
     /\ (exists new_tasks new_lines,
           tasks (fst run) = tasks c ++ new_tasks
           /\ console (fst run) = console c ++ new_lines
           /\ (length new_tasks + length new_lines = size)%nat))
  /\ (forall fileNameFn : ee_image -> string -> completion js_value,
     let run := exportBandsByYear col aoi folder_ scale_ crs_ fileNameFn c in
     snd run = Normal tt
     /\ (exists new_tasks new_lines,
           tasks (fst run) = tasks c ++ new_tasks
           /\ console (fst run) = console c ++ new_lines
           /\ (length new_lines <= size)%nat)).
Proof.
  intros Hsize. split; intros fileNameFn run; subst run.
  - rewrite (exportImageCollection_run _ _ _ _ _ size) by exact Hsize.
    split; [reflexivity|]. eexists _, _. cbn [fst tasks console].
    split; [reflexivity|]. split; [reflexivity|].
    rewrite one_outcome_each. apply length_seq.
  - rewrite (exportBandsByYear_run _ _ _ _ _ size) by exact Hsize.
    split; [reflexivity|]. eexists _, _. cbn [fst tasks console].
    split; [reflexivity|]. split; [reflexivity|].
    etransitivity;
      [apply (at_most_one_report_each
                (fun i => snd (year_handling col aoi folder_ scale_ crs_
                                             fileNameFn i)))
      |now rewrite length_seq].
Qed.

Lemma export_loops_account_for_every_image_witness :
  let run := exportImageCollection landsat alberta "Landsat_Multiband_Export"
                                   30 "EPSG:4326" name_by_index busy in
  snd run = Normal tt
  /\ (exists new_tasks new_lines,
        tasks (fst run) = tasks busy ++ new_tasks
        /\ console (fst run) = console busy ++ new_lines
        /\ (length new_tasks + length new_lines = 3)%nat).
Proof.
  apply (proj1 (export_loops_account_for_every_image
                  landsat alberta "Landsat_Multiband_Export" 30 "EPSG:4326"
                  3 busy eq_refl)
               name_by_index).
Defined.

(** X16.  The size of the collection is fetched before the loop and outside
    its [try]: when [collection.size().getInfo()] throws, both functions
    throw that very error; nothing is queued and nothing is printed. *)
Theorem export_loops_do_not_catch_size_errors
    (col : collection) (aoi : geometry) (folder_ : string) (scale_ : Q)
    (crs_ : string) (e : exn) (c : client) :
  size_getInfo col = Throw e ->
  (forall fileNameFn,
     exportImageCollection col aoi folder_ scale_ crs_ fileNameFn c = (c, Throw e))
  /\ (forall fileNameFn,
     exportBandsByYear col aoi folder_ scale_ crs_ fileNameFn c = (c, Throw e)).
Proof.
  intros Hsize. split; intros fileNameFn.
  - unfold exportImageCollection, bind, lift. now rewrite Hsize.
  - unfold exportBandsByYear, bind at 1. unfold lift at 1. now rewrite Hsize.
Qed.

Lemma export_loops_do_not_catch_size_errors_witness :
  exportBandsByYear unreachable alberta "Landsat_Bands_Export" 30 "EPSG:4326"
                    name_by_band busy
  = (busy, Throw (Error "Collection.size: request timed out.")).
Proof.
  apply (proj2 (export_loops_do_not_catch_size_errors
                  unreachable alberta "Landsat_Bands_Export" 30 "EPSG:4326"
                  (Error "Collection.size: request timed out.") busy eq_refl)
               name_by_band).
Defined.

(** ** A band that cannot be named *)

Lemma bands_handling_stops
    (aoi : geometry) (folder_ : string) (scale_ : Q) (crs_ : string)
    (fileNameFn : ee_image -> string -> completion js_value)
    (img : ee_image) (before : list string) (names : list string)
    (bad : string) (after : list string) (e : exn) :
  Forall2 (fun band name => named_or_error (fileNameFn img band) = inl name)
          before names ->
  named_or_error (fileNameFn img bad) = inr e ->
  bands_handling aoi folder_ scale_ crs_ fileNameFn img (before ++ bad :: after)
  = (map (fun bn => task aoi folder_ scale_ crs_
                      (Clip (SelectBand img (fst bn)) aoi) (snd bn))
         (combine before names), Some e).
Proof.
  intros Hnames Hbad.
  induction Hnames as [|band name before names Hn _ IH].
  - cbn. now rewrite Hbad.
  - cbn. now rewrite Hn, IH.
Qed.

(** X17.  [exportBandsByYear] gives up on an image at the first band whose
    file name cannot be produced: the bands before it have been queued and
    stay queued, the failing band and all bands after it are never
    exported, and the error is printed once.  An image can thus be exported
    in part. *)
Theorem exportBandsByYear_stops_at_first_failing_band
    (col : collection) (aoi : geometry) (folder_ : string) (scale_ : Q)
    (crs_ : string) (size : nat) (c : client)
    (fileNameFn : ee_image -> string -> completion js_value)
    (i : nat) (before : list string) (names : list string) (bad : string)
    (after : list string) (e : exn) :
  size_getInfo col = Normal size ->
  (i < size)%nat ->
  bandNames_getInfo col (ListGet i) = Normal (before ++ bad :: after) ->
  Forall2 (fun band name => named_or_error (fileNameFn (ListGet i) band) = inl name)
          before names ->
  named_or_error (fileNameFn (ListGet i) bad) = inr e ->
  let run := exportBandsByYear col aoi folder_ scale_ crs_ fileNameFn c in
  snd run = Normal tt
  /\ (exists new_tasks,
        tasks (fst run) = tasks c ++ new_tasks
        /\ List.filter (from_image i) new_tasks
           = map (fun bn => task aoi folder_ scale_ crs_
                              (Clip (SelectBand (ListGet i) (fst bn)) aoi) (snd bn))
                 (combine before names))
  /\ In ["Error processing image:"; message_of e] (console (fst run)).
Proof.
  intros Hsize Hi Hbands Hnames Hbad run. subst run.
  rewrite (exportBandsByYear_run _ _ _ _ _ size) by exact Hsize.
  cbn [fst snd tasks console].
  assert (Hyear : year_handling col aoi folder_ scale_ crs_ fileNameFn i
                  = (map (fun bn => task aoi folder_ scale_ crs_
                                      (Clip (SelectBand (ListGet i) (fst bn)) aoi)
                                      (snd bn))
                         (combine before names), Some e)).
  { unfold year_handling. rewrite Hbands. now apply bands_handling_stops. }
  split; [reflexivity|]. split.
  - eexists. split; [reflexivity|].
    rewrite (filter_from_image
               (fun j => fst (year_handling col aoi folder_ scale_ crs_ fileNameFn j))).
    + destruct (in_dec Nat.eq_dec i (seq 0 size)) as [_|Hnin].
      * now rewrite Hyear.
      * exfalso. apply Hnin, in_seq. lia.
    + intros j t. unfold year_handling.
      destruct (bandNames_getInfo col (ListGet j)) as [bands|e']; cbn; [|tauto].
      apply bands_handling_source.
    + apply seq_NoDup.
  - apply in_or_app. right. apply in_flat_map. exists i. split.
    + apply in_seq. lia.
    + rewrite Hyear. now left.
Qed.

(** Bands B4 and B5, no file name for B5: B4 of the first image is queued,
    B5 is not. *)
Lemma exportBandsByYear_stops_at_first_failing_band_witness :
  let run := exportBandsByYear landsat alberta "Landsat_Bands_Export" 30
                               "EPSG:4326" name_except_B5 idle in
  snd run = Normal tt
  /\ (exists new_tasks,
        tasks (fst run) = tasks idle ++ new_tasks
        /\ List.filter (from_image 0) new_tasks
           = map (fun bn => task alberta "Landsat_Bands_Export" 30 "EPSG:4326"
                              (Clip (SelectBand (ListGet 0) (fst bn)) alberta)
                              (snd bn))
                 (combine ["B4"] ["ls_B4_0"]))
  /\ In ["Error processing image:";
         message_of (Error "Invalid file name generated.")]
        (console (fst run)).
Proof.
  apply (exportBandsByYear_stops_at_first_failing_band
           landsat alberta "Landsat_Bands_Export" 30 "EPSG:4326" 3 idle
           name_except_B5 0 ["B4"] ["ls_B4_0"] "B5" []
           (Error "Invalid file name generated.")).
  - reflexivity.
  - lia.
  - reflexivity.
  - repeat constructor.
  - reflexivity.
Defined.

(** ** The two scripts that call exportImageCollection *)

Lemma concat_is_valid (text : string) (v : js_value) :
  text <> "" ->
  named_or_error (Normal (concat text v)) = inl (text ++ to_string v)%string.
Proof.
  intros Htext. unfold named_or_error, concat.
  replace (invalid_file_name (JsString (text ++ to_string v))) with false;
    [reflexivity|].
  symmetry. apply invalid_file_name_spec. eexists. split; [reflexivity|].
  destruct text; [contradiction|discriminate].
Qed.

Lemma flat_map_singletons {A B} (f : A -> B) (g : A -> list B) (xs : list A) :
  (forall x, In x xs -> g x = [f x]) -> flat_map g xs = map f xs.
Proof.
  induction xs as [|x xs IH]; intros Hg; [reflexivity|].
  cbn. rewrite Hg by now left. cbn. f_equal. apply IH.
  intros y Hy. apply Hg. now right.
Qed.

Lemma flat_map_nils {A B} (g : A -> list B) (xs : list A) :
  (forall x, In x xs -> g x = []) -> flat_map g xs = [].
Proof.
  induction xs as [|x xs IH]; intros Hg; [reflexivity|].
  cbn. rewrite Hg by now left. cbn. apply IH.
  intros y Hy. apply Hg. now right.
Qed.

Lemma all_named_run
    (col : collection) (aoi : geometry) (folder_ : string) (scale_ : Q)
    (crs_ : string) (size : nat) (c : client)
    (fileNameFn : ee_image -> completion js_value) (name : nat -> string) :
  size_getInfo col = Normal size ->
  (forall i, (i < size)%nat ->
     named_or_error (fileNameFn (ListGet i)) = inl (name i)) ->
  exportImageCollection col aoi folder_ scale_ crs_ fileNameFn c
  = ({| tasks := tasks c
                 ++ map (fun i => task aoi folder_ scale_ crs_
                                    (Clip (ListGet i) aoi) (name i))
                        (seq 0 size);
        console := console c |},
     Normal tt).
Proof.
  intros Hsize Hname.
  rewrite (exportImageCollection_run _ _ _ _ _ size) by exact Hsize.
  rewrite (flat_map_singletons
             (fun i => task aoi folder_ scale_ crs_ (Clip (ListGet i) aoi) (name i))).
  - rewrite flat_map_nils; [now rewrite app_nil_r|].
    intros i Hi. apply in_seq in Hi. unfold image_handling.
    rewrite Hname by lia. reflexivity.
  - intros i Hi. apply in_seq in Hi. unfold image_handling.
    rewrite Hname by lia. reflexivity.
Qed.

(** X18.  The MODIS script's export: when the year of every image can be
    fetched, every image of the dataset is queued, clipped to the AOI, under
    the name MODIS_MCD12Q2_<year>, in collection order; nothing is printed.
    The file name is a non-empty string whatever the year is, so the
    validation of [exportImageCollection] never rejects it. *)
Theorem MODIS_export_queues_every_year
    (dataset : collection) (aoi : geometry)
    (year_getInfo : ee_image -> completion string)
    (size : nat) (year : nat -> string) (c : client) :
  size_getInfo dataset = Normal size ->
  (forall i, (i < size)%nat -> year_getInfo (ListGet i) = Normal (year i)) ->
  MODIS_export dataset aoi year_getInfo c
  = ({| tasks := tasks c
                 ++ map (fun i => task aoi "gee_exports" 500 "EPSG:4326"
                                    (Clip (ListGet i) aoi)
                                    ("MODIS_MCD12Q2_" ++ year i)%string)
                        (seq 0 size);
        console := console c |},
     Normal tt).
Proof.
  intros Hsize Hyear. unfold MODIS_export.
  apply all_named_run; [exact Hsize|].
  intros i Hi. unfold MODIS_fileNameFn. rewrite (Hyear i Hi).
  now rewrite concat_is_valid.
Qed.

Lemma MODIS_export_queues_every_year_witness :
  MODIS_export landsat alberta modis_years idle
  = ({| tasks :=
          [ task alberta "gee_exports" 500 "EPSG:4326"
                 (Clip (ListGet 0) alberta) "MODIS_MCD12Q2_2001";
            task alberta "gee_exports" 500 "EPSG:4326"
                 (Clip (ListGet 1) alberta) "MODIS_MCD12Q2_2002";
            task alberta "gee_exports" 500 "EPSG:4326"
                 (Clip (ListGet 2) alberta) "MODIS_MCD12Q2_2003" ];
        console := [] |},
     Normal tt).
Proof.
  apply (MODIS_export_queues_every_year
           landsat alberta modis_years 3
           (fun i => match i with 0 => "2001" | 1 => "2002" | _ => "2003" end)
           idle eq_refl).
  intros [|[|[|i]]] Hi; reflexivity.
Defined.

(** X19.  The Sentinel-2 script's export: when the 'year' property of every
    image can be fetched and is null, undefined, a boolean, a string, or an
    integer of at most 2^53 in magnitude (a number JavaScript prints in
    plain decimal), every image is queued under the name
    sentinel2_multiband_<year>, and nothing is printed.  An image whose
    'year' is missing (null or undefined), zero, or the empty string is
    queued as sentinel2_multiband_unknown: two such images get the same file
    name. *)
Theorem sentinel2_export_queues_every_image
    (s2 : collection) (aoi : geometry)
    (year_getInfo : ee_image -> completion js_value)
    (size : nat) (year : nat -> js_value) (c : client) :
  size_getInfo s2 = Normal size ->
  (forall i, (i < size)%nat -> year_getInfo (ListGet i) = Normal (year i)) ->
  (forall i, (i < size)%nat ->
     match year i with
     | JsNumber n => (Z.abs n <= 2 ^ 53)%Z
     | JsObject => False
     | _ => True
     end) ->
  let file_name i :=
    ("sentinel2_multiband_"
     ++ (if truthy (year i) then to_string (year i) else "unknown"))%string in
  sentinel2_export s2 aoi year_getInfo c
  = ({| tasks := tasks c
                 ++ map (fun i => task aoi "gee_exports" 10 "EPSG:4326"
                                    (Clip (ListGet i) aoi) (file_name i))
                        (seq 0 size);
        console := console c |},
     Normal tt)
  /\ forall i j,
       In (year i) [JsNull; JsUndefined; JsNumber 0; JsString ""] ->
       In (year j) [JsNull; JsUndefined; JsNumber 0; JsString ""] ->
       file_name i = "sentinel2_multiband_unknown"
       /\ file_name i = file_name j.
Proof.
  intros Hsize Hyear _ file_name. split.
  - unfold sentinel2_export.
    apply all_named_run; [exact Hsize|].
    intros i Hi. unfold sentinel2_fileNameFn. rewrite (Hyear i Hi). cbn zeta.
    rewrite concat_is_valid by discriminate.
    subst file_name. cbn beta. unfold or_else.
    now destruct (truthy (year i)).
  - assert (Hunknown : forall i,
              In (year i) [JsNull; JsUndefined; JsNumber 0; JsString ""] ->
              file_name i = "sentinel2_multiband_unknown").
    { intros i Hin. subst file_name. cbn beta. cbn [In] in Hin.
      destruct Hin as [<-|[<-|[<-|[<-|[]]]]]; reflexivity. }
    intros i j Hin Hjn. split; [now apply Hunknown|].
    now rewrite !Hunknown.
Qed.

Lemma sentinel2_export_queues_every_image_witness :
  sentinel2_export landsat alberta s2_years idle
  = ({| tasks :=
          [ task alberta "gee_exports" 10 "EPSG:4326"
                 (Clip (ListGet 0) alberta) "sentinel2_multiband_2019";
            task alberta "gee_exports" 10 "EPSG:4326"
                 (Clip (ListGet 1) alberta) "sentinel2_multiband_unknown";
            task alberta "gee_exports" 10 "EPSG:4326"
                 (Clip (ListGet 2) alberta) "sentinel2_multiband_2021" ];
        console := [] |},
     Normal tt).
Proof.
  apply (proj1 (sentinel2_export_queues_every_image
                  landsat alberta s2_years 3
                  (fun i => match i with
                            | 0 => JsNumber 2019
                            | 1 => JsNull
                            | _ => JsString "2021"
                            end)
                  idle eq_refl
                  ltac:(intros [|[|[|i]]] Hi; try reflexivity; lia)
                  ltac:(intros [|[|[|i]]] Hi; cbn; lia))).
Defined.

End ExportingMore.

(* ===================================================================== *)
(** * Further properties of the terrain script *)
(* ===================================================================== *)

Module TerrainMore.
Import EE Terrain EETheory.
Local Open Scope string_scope.
Local Open Scope list_scope.

Lemma prefix_append (s t : string) : String.prefix s (s ++ t) = true.
Proof.
  induction s as [|a s IH]; [now destruct t|].
  change (String.prefix (String a s) (String a (s ++ t)) = true).
  cbn. now destruct (ascii_dec a a).
Qed.

(** The name [addBands] gives a band starts with the name the band had. *)
Lemma fresh_name_prefix (names : list string) (name : string) :
  String.prefix name (fresh_name names name) = true.
Proof.
  unfold fresh_name.
  destruct (has_name names name).
  - destruct (List.find _ _); unfold numbered; apply prefix_append.
  - clear. induction name as [|a s IH]; [reflexivity|].
    cbn. now destruct (ascii_dec a a).
Qed.


Local Open Scope R_scope.

(** X21.  With real-valued pixels, northness and eastness lie between -1
    and 1 at every pixel where the aspect is valid, and both are masked
    exactly where the aspect is. *)
Theorem northness_and_eastness_between_minus_one_and_one
    (dem : Image R) (Terrain_aspect : Image R -> Raster R) (p : pixel) :
  match Terrain_aspect dem p with
  | None =>
      b_px (northness dem Terrain_aspect) p = None
      /\ b_px (eastness dem Terrain_aspect) p = None
  | Some a =>
      exists n e,
        b_px (northness dem Terrain_aspect) p = Some n
        /\ b_px (eastness dem Terrain_aspect) p = Some e
        /\ -1 <= n <= 1
        /\ -1 <= e <= 1
  end.
Proof.
  unfold northness, eastness, aspect, cos_, sin_, divide_by, multiply.
  cbn [rename named map_px b_px b_name].
  destruct (Terrain_aspect dem p) as [a|]; cbn [option_map]; [|now split].
  eexists _, _. split; [reflexivity|]. split; [reflexivity|].
  change (@cos R Trig_R) with Rtrigo_def.cos.
  change (@sin R Trig_R) with Rtrigo_def.sin.
  split; [apply COS_bound|apply SIN_bound].
Qed.

End TerrainMore.

(* ===================================================================== *)
(** * Properties of splitAOIIntoTiles *)
(* ===================================================================== *)

Module UtilsTheory.
Import Utils.
Local Open Scope list_scope.

Lemma In_sequence (last i : Z) : In i (sequence last) <-> (0 <= i <= last)%Z.
Proof.
  unfold sequence. rewrite in_map_iff. split.
  - intros (n & <- & Hn). apply in_seq in Hn. lia.
  - intros Hi. exists (Z.to_nat i). split; [lia|]. apply in_seq. lia.
Qed.

Lemma length_sequence (last : Z) :
  length (sequence last) = Z.to_nat (last + 1).
Proof. unfold sequence. now rewrite length_map, length_seq. Qed.

Lemma length_grid {A B C} (f : A -> B -> C) (xs : list A) (ys : list B) :
  length (flat_map (fun x => map (f x) ys) xs) = (length xs * length ys)%nat.
Proof.
  induction xs as [|x xs IH]; [reflexivity|].
  cbn [flat_map]. rewrite length_app, length_map, IH. reflexivity.
Qed.

Section Tiles.
Context (distance : point -> point -> Q).

Lemma In_tiles (bottomLeft topRight : point) (tileSize : Q) (t : rectangle) :
  In t (splitAOIIntoTiles distance bottomLeft topRight tileSize)
  <-> exists i j,
        (0 <= i < Qround.Qceiling
                    (distance bottomLeft (fst topRight, snd bottomLeft) / tileSize))%Z
        /\ (0 <= j < Qround.Qceiling
                       (distance bottomLeft (fst bottomLeft, snd topRight) / tileSize))%Z
        /\ t = Rectangle
                 (fst bottomLeft + inject_Z i * tileSize)%Q
                 (snd bottomLeft + inject_Z j * tileSize)%Q
                 (fst bottomLeft + inject_Z i * tileSize + tileSize)%Q
                 (snd bottomLeft + inject_Z j * tileSize + tileSize)%Q.
Proof.
  unfold splitAOIIntoTiles. cbn zeta. rewrite in_flat_map. split.
  - intros (i & Hi & Ht). apply in_map_iff in Ht as (j & <- & Hj).
    apply In_sequence in Hi, Hj. exists i, j. repeat split; lia.
  - intros (i & j & Hi & Hj & ->). exists i. split.
    + apply In_sequence. lia.
    + apply in_map_iff. exists j. split; [reflexivity|].
      apply In_sequence. lia.
Qed.

End Tiles.


End UtilsTheory.

(* ===================================================================== *)
(** * Properties of applyScaling *)
(* ===================================================================== *)

Module ModisTheory.
Import EE Terrain Modis EETheory.
Local Open Scope string_scope.
Local Open Scope list_scope.

Lemma bandNames_replace_band {V} (b : Band V) (image : Image V) :
  bandNames (replace_band b image) = bandNames image.
Proof.
  unfold bandNames, replace_band. rewrite map_map. apply map_ext.
  intros b'. destruct (String.eqb_spec (b_name b') (b_name b)); congruence.
Qed.

Lemma addBands_overwrite_present {V} (dst src : Image V) :
  (forall b, In b src -> In (b_name b) (bandNames dst)) ->
  addBands_overwrite dst src = fold_left (fun acc b => replace_band b acc) src dst.
Proof.
  unfold addBands_overwrite. revert dst.
  induction src as [|b src IH]; intros dst Hsrc; [reflexivity|].
  cbn [fold_left].
  replace (has_name (bandNames dst) (b_name b)) with true
    by (symmetry; apply has_name_In, Hsrc; now left).
  apply IH. intros b' Hb'. rewrite bandNames_replace_band. apply Hsrc. now right.
Qed.

(** In an image whose band names are distinct, a name selects its band. *)
Lemma select_own_name {V} (image : Image V) (b : Band V) :
  List.NoDup (bandNames image) -> In b image -> select image (b_name b) = Done b.
Proof.
  unfold select. induction image as [|b' bs IH]; intros Hnd Hin; [destruct Hin|].
  cbn in Hnd. apply NoDup_cons_iff in Hnd as [Hnotin Hnd].
  cbn [List.find]. destruct Hin as [->|Hin].
  - now rewrite String.eqb_refl.
  - destruct (String.eqb_spec (b_name b') (b_name b)) as [E|_]; [|now apply IH].
    exfalso. apply Hnotin. rewrite E. now apply in_map.
Qed.

Lemma scaledBands_in_order {V} (x1 x2 x3 x4 x5 x6 : Band V) :
  addBands (addBands (addBands (addBands (addBands
    [rename x1 "EVI_Minimum_1"] [rename x2 "EVI_Minimum_2"])
    [rename x3 "EVI_Amplitude_1"]) [rename x4 "EVI_Amplitude_2"])
    [rename x5 "EVI_Area_1"]) [rename x6 "EVI_Area_2"]
  = [rename x1 "EVI_Minimum_1"; rename x2 "EVI_Minimum_2";
     rename x3 "EVI_Amplitude_1"; rename x4 "EVI_Amplitude_2";
     rename x5 "EVI_Area_1"; rename x6 "EVI_Area_2"].
Proof. reflexivity. Qed.

Lemma scaled_present {V} `{Numeric V} (image : Image V) (name : string) (k : Q) :
  In name (bandNames image) ->
  exists b, select image name = Done b
            /\ scaled image name k = Done [rename (multiply b (lit k)) name].
Proof.
  intros Hin. destruct (select_present image name Hin) as (b & Hb & _ & _).
  exists b. split; [exact Hb|]. unfold scaled. now rewrite Hb.
Qed.

Lemma scaled_absent {V} `{Numeric V} (image : Image V) (name : string) (k : Q) :
  ~ In name (bandNames image) -> exists msg, scaled image name k = Failed msg.
Proof.
  intros Hno. unfold scaled. rewrite (select_absent image name Hno). cbn. eauto.
Qed.

Lemma scaled_cases {V} `{Numeric V} (image : Image V) (name : string) (k : Q) :
  (In name (bandNames image) /\ exists bs, scaled image name k = Done bs)
  \/ (~ In name (bandNames image) /\ exists msg, scaled image name k = Failed msg).
Proof.
  destruct (in_dec string_dec name (bandNames image)) as [Hin|Hno].
  - left. split; [exact Hin|].
    destruct (scaled_present image name k Hin) as (b & _ & E). eauto.
  - right. split; [exact Hno|]. now apply scaled_absent.
Qed.

(** X25.  On an image with distinct band names that has the six EVI bands,
    [applyScaling] returns the image with the same bands in the same order:
    EVI_Minimum_1, EVI_Minimum_2, EVI_Amplitude_1 and EVI_Amplitude_2
    multiplied by 0.0001, EVI_Area_1 and EVI_Area_2 multiplied by 0.1, each
    in its place and under its name, and every other band untouched. *)
Theorem applyScaling_rescales_in_place
    {V : Type} `{Numeric V} (image : Image V) :
  List.NoDup (bandNames image) ->
  (forall name, In name scaled_names -> In name (bandNames image)) ->
  applyScaling image = Done (map rescale image)
  /\ bandNames (map rescale image) = bandNames image.
Proof.
  intros Hnd Hhas. split.
  - unfold applyScaling.
    destruct (scaled_present image "EVI_Minimum_1" (1 # 10000)) as (b1 & S1 & ->);
      [apply Hhas; cbn; tauto|].
    destruct (scaled_present image "EVI_Minimum_2" (1 # 10000)) as (b2 & S2 & ->);
      [apply Hhas; cbn; tauto|].
    destruct (scaled_present image "EVI_Amplitude_1" (1 # 10000)) as (b3 & S3 & ->);
      [apply Hhas; cbn; tauto|].
    destruct (scaled_present image "EVI_Amplitude_2" (1 # 10000)) as (b4 & S4 & ->);
      [apply Hhas; cbn; tauto|].
    destruct (scaled_present image "EVI_Area_1" (1 # 10)) as (b5 & S5 & ->);
      [apply Hhas; cbn; tauto|].
    destruct (scaled_present image "EVI_Area_2" (1 # 10)) as (b6 & S6 & ->);
      [apply Hhas; cbn; tauto|].
    cbn [bind]. rewrite scaledBands_in_order. f_equal.
    rewrite addBands_overwrite_present.
    2:{ intros b Hb. apply Hhas. cbn [In] in Hb. unfold scaled_names.
        repeat (destruct Hb as [<-|Hb]; [cbn; tauto|]). destruct Hb. }
    cbn [fold_left]. unfold replace_band. rewrite !map_map.
    apply map_ext_in. intros b Hb. cbn [rename b_name].
    pose proof (select_own_name image b Hnd Hb) as Hown.
    unfold rescale, scale_factor, has_name. cbn [existsb].
    destruct (String.eqb_spec (b_name b) "EVI_Minimum_1") as [E|_].
    { rewrite E in *. cbn. congruence. }
    destruct (String.eqb_spec (b_name b) "EVI_Minimum_2") as [E|_].
    { rewrite E in *. cbn. congruence. }
    destruct (String.eqb_spec (b_name b) "EVI_Amplitude_1") as [E|_].
    { rewrite E in *. cbn. congruence. }
    destruct (String.eqb_spec (b_name b) "EVI_Amplitude_2") as [E|_].
    { rewrite E in *. cbn. congruence. }
    destruct (String.eqb_spec (b_name b) "EVI_Area_1") as [E|_].
    { rewrite E in *. cbn. congruence. }
    destruct (String.eqb_spec (b_name b) "EVI_Area_2") as [E|_].
    { rewrite E in *. cbn. congruence. }
    reflexivity.
  - unfold bandNames. rewrite map_map. apply map_ext. intros b.
    unfold rescale. now destruct (scale_factor (b_name b)).
Qed.

Lemma applyScaling_rescales_in_place_witness :
  applyScaling mcd12q2 = Done (map rescale mcd12q2)
  /\ bandNames (map rescale mcd12q2) = bandNames mcd12q2.
Proof.
  apply (applyScaling_rescales_in_place mcd12q2).
  - cbn. repeat constructor; cbn; intros Hin;
      repeat (destruct Hin as [Hin|Hin]; [discriminate Hin|]); exact Hin.
  - intros name Hin. unfold scaled_names in Hin. cbn [In] in Hin.
    repeat (destruct Hin as [<-|Hin]; [cbn; tauto|]). destruct Hin.
Defined.

(** X26.  [applyScaling] returns an image if and only if the input has all
    six EVI bands; with one of them missing it fails, whatever the other
    bands are. *)
Theorem applyScaling_needs_the_six_bands
    {V : Type} `{Numeric V} (image : Image V) :
  (exists out, applyScaling image = Done out)
  <-> forall name, In name scaled_names -> In name (bandNames image).
Proof.
  unfold applyScaling, scaled_names. split.
  - intros [out Hout] name Hname. revert Hout.
    destruct (scaled_cases image "EVI_Minimum_1" (1 # 10000))
      as [[I1 [x1 ->]]|[_ [msg ->]]]; [cbn [bind]|discriminate].
    destruct (scaled_cases image "EVI_Minimum_2" (1 # 10000))
      as [[I2 [x2 ->]]|[_ [msg ->]]]; [cbn [bind]|discriminate].
    destruct (scaled_cases image "EVI_Amplitude_1" (1 # 10000))
      as [[I3 [x3 ->]]|[_ [msg ->]]]; [cbn [bind]|discriminate].
    destruct (scaled_cases image "EVI_Amplitude_2" (1 # 10000))
      as [[I4 [x4 ->]]|[_ [msg ->]]]; [cbn [bind]|discriminate].
    destruct (scaled_cases image "EVI_Area_1" (1 # 10))
      as [[I5 [x5 ->]]|[_ [msg ->]]]; [cbn [bind]|discriminate].
    destruct (scaled_cases image "EVI_Area_2" (1 # 10))
      as [[I6 [x6 ->]]|[_ [msg ->]]]; [cbn [bind]|discriminate].
    intros _. cbn [In] in Hname.
    repeat (destruct Hname as [<-|Hname]; [assumption|]). destruct Hname.
  - intros Hhas.
    destruct (scaled_present image "EVI_Minimum_1" (1 # 10000)) as (b1 & _ & ->);
      [apply Hhas; cbn; tauto|].
    destruct (scaled_present image "EVI_Minimum_2" (1 # 10000)) as (b2 & _ & ->);
      [apply Hhas; cbn; tauto|].
    destruct (scaled_present image "EVI_Amplitude_1" (1 # 10000)) as (b3 & _ & ->);
      [apply Hhas; cbn; tauto|].
    destruct (scaled_present image "EVI_Amplitude_2" (1 # 10000)) as (b4 & _ & ->);
      [apply Hhas; cbn; tauto|].
    destruct (scaled_present image "EVI_Area_1" (1 # 10)) as (b5 & _ & ->);
      [apply Hhas; cbn; tauto|].
    destruct (scaled_present image "EVI_Area_2" (1 # 10)) as (b6 & _ & ->);
      [apply Hhas; cbn; tauto|].
    cbn [bind]. eauto.
Qed.

End ModisTheory.
